(** * A rotation-aware log tailer with retry policy, circuit breaker and
      durable state: shallow embedding and verified properties.

    The development follows the three Python modules of the watcher:
    - [watcher_models.py]   (module [Models]):   enums, records, the JSON
      view of the persisted state, [StateManager];
    - [error_handler.py]    (module [Handler]):  [ErrorHandler];
    - [log_file_manager.py] (module [Tailer]):   [LogFileManager].

    Conventions of the embedding.
    - Python [int] is [Z].  Python [float] values (time stamps, delays) are
      rationals [Q]: every comparison the code makes on them is exact, and
      [now + timeout] is kept as the sum of the model.  The one place where
      the float format itself matters ([get_backoff_delay], where an [int]
      is converted to [float]) writes the conversion out.
    - Python [dict] with string keys is stdpp's [gmap string _]; the
      objects stored in a dict are shared with their readers in Python, so
      an attribute assignment on a breaker returned by [get_circuit_breaker]
      is an update of the map entry here.
    - [time.time()], the file system and the watched file are inputs of
      the functions that consult them.
    - A file is the string of its bytes.  The reader of the watched file is
      modelled on texts of ASCII characters without carriage return, where a
      line ends at a line feed and [tell()] counts bytes; the theorems on
      reading state that condition ([plain_text]).
    - [print] is not modelled. *)

From Stdlib Require Import ZArith QArith Qminmax Lqa String Ascii List Lia Bool.
From stdpp Require Import gmap strings list fin_maps.

Local Open Scope string_scope.

(** The type expected of an optional value decides how its content is
    read. *)
Arguments Some {A} & a.

(* ===================================================================== *)
(** * watcher_models.py *)
(* ===================================================================== *)

Module Models.

(** class RecoveryAction(Enum) *)
Inductive RecoveryAction : Type :=
  | RETRY_IMMEDIATE
  | RETRY_WITH_BACKOFF
  | RESTART_COMPONENT
  | CIRCUIT_BREAKER
  | FATAL_EXIT.

(** @dataclass ErrorContext.  The [stack_trace] text is never read by the
    code and is left out. *)
Record ErrorContext : Type := mkErrorContext {
  error_type : string;
  component : string;
  attempt_count : Z;
  last_attempt_time : Q;
  error_message : string
}.

(** @dataclass CircuitBreakerState *)
Record CircuitBreakerState : Type := mkCircuitBreakerState {
  is_open : bool;
  failure_count : Z;
  last_failure_time : Q;
  last_success_time : Q;
  next_attempt_time : Q
}.

(** [CircuitBreakerState()]: every field at its declared default. *)
Definition CircuitBreakerState_default : CircuitBreakerState :=
  {| is_open := false; failure_count := 0%Z; last_failure_time := 0%Q;
     last_success_time := 0%Q; next_attempt_time := 0%Q |}.

(** The values [json.load] produces and [json.dump] consumes.  Objects are
    Python dicts, hence finite maps with string keys. *)
Local Unset Elimination Schemes.
Inductive json : Type :=
  | JNull
  | JBool (b : bool)
  | JInt (z : Z)
  | JFloat (q : Q)
  | JStr (s : string)
  | JArr (l : list json)
  | JObj (m : gmap string json).
Local Set Elimination Schemes.

(** @dataclass WatcherState, after [__post_init__]: the three container
    fields are never [None] once the constructor has run.  The elements of
    [error_rate_window] are owned by the alerting layer and kept as the
    JSON values they are. *)
Record WatcherState : Type := mkWatcherState {
  current_pool : option string;
  last_alert_times : gmap string Q;
  error_rate_window : list json;
  file_position : Z;
  file_inode : option Z;
  circuit_breaker_states : gmap string CircuitBreakerState;
  last_health_check : Q;
  startup_time : Q
}.

(** [__post_init__] on the start-up stamp: [if self.startup_time == 0:
    self.startup_time = time.time()]. *)
Definition post_init_startup (now st : Q) : Q :=
  if Qeq_bool st 0 then now else st.

(** [WatcherState()] evaluated when the clock reads [now]. *)
Definition WatcherState_default (now : Q) : WatcherState :=
  {| current_pool := None; last_alert_times := ∅; error_rate_window := [];
     file_position := 0%Z; file_inode := None; circuit_breaker_states := ∅;
     last_health_check := 0%Q; startup_time := post_init_startup now 0%Q |}.

(** ** From a record to JSON: [asdict] *)

Definition cb_to_json (cb : CircuitBreakerState) : json :=
  JObj (<["is_open" := JBool (is_open cb)]>
       (<["failure_count" := JInt (failure_count cb)]>
       (<["last_failure_time" := JFloat (last_failure_time cb)]>
       (<["last_success_time" := JFloat (last_success_time cb)]>
       (<["next_attempt_time" := JFloat (next_attempt_time cb)]> ∅))))).

Definition opt_to_json {A : Type} (f : A → json) (o : option A) : json :=
  match o with Some a => f a | None => JNull end.

(** [state_dict] as [save_state] builds it: [asdict(self.state)] with the
    breaker map rebuilt entry by entry. *)
Definition state_to_json (s : WatcherState) : json :=
  JObj (<["current_pool" := opt_to_json JStr (current_pool s)]>
       (<["last_alert_times" := JObj (JFloat <$> last_alert_times s)]>
       (<["error_rate_window" := JArr (error_rate_window s)]>
       (<["file_position" := JInt (file_position s)]>
       (<["file_inode" := opt_to_json JInt (file_inode s)]>
       (<["circuit_breaker_states" :=
            JObj (cb_to_json <$> circuit_breaker_states s)]>
       (<["last_health_check" := JFloat (last_health_check s)]>
       (<["startup_time" := JFloat (startup_time s)]> ∅)))))))).

(** ** From JSON to a record: the dataclass constructors applied to a dict *)

(** What building an object from a JSON value can do: build a record whose
    fields have their annotated types; raise inside the [try] block of
    [load_state]; or build a Python object some field of which holds a
    value outside its annotation (Python does not check annotations), which
    the typed records of this development do not represent. *)
Inductive decoded (A : Type) : Type :=
  | Built (a : A)
  | Raises
  | Untyped.
Arguments Built {A} a.
Arguments Raises {A}.
Arguments Untyped {A}.

Definition is_raises {A : Type} (d : decoded A) : bool :=
  match d with Raises => true | _ => false end.

Definition is_untyped {A : Type} (d : decoded A) : bool :=
  match d with Untyped => true | _ => false end.

Definition built {A : Type} (d : decoded A) : option A :=
  match d with Built a => Some a | _ => None end.

(** Field readers: [None] is a value outside the annotation; an absent key
    takes the declared default [d]. *)
Definition get_bool (o : option json) (d : bool) : option bool :=
  match o with
  | None => Some d
  | Some (JBool b) => Some b
  | Some _ => None
  end.

Definition get_int (o : option json) (d : Z) : option Z :=
  match o with
  | None => Some d
  | Some (JInt z) => Some z
  | Some _ => None
  end.

Definition num_of_json (j : json) : option Q :=
  match j with
  | JInt z => Some (inject_Z z)
  | JFloat q => Some q
  | _ => None
  end.

Definition get_float (o : option json) (d : Q) : option Q :=
  match o with
  | None => Some d
  | Some j => num_of_json j
  end.

Definition get_opt_int (o : option json) : option (option Z) :=
  match o with
  | None | Some JNull => Some None
  | Some (JInt z) => Some (Some z)
  | Some _ => None
  end.

Definition get_opt_str (o : option json) : option (option string) :=
  match o with
  | None | Some JNull => Some None
  | Some (JStr s) => Some (Some s)
  | Some _ => None
  end.

(** [last_alert_times]: [None] becomes [{}] in [__post_init__]. *)
Definition get_alert_times (o : option json) : option (gmap string Q) :=
  match o with
  | None | Some JNull => Some ∅
  | Some (JObj m) =>
      if forallb (λ kv, bool_decide (is_Some (num_of_json kv.2))) (map_to_list m)
      then Some (omap num_of_json m) else None
  | Some _ => None
  end.

(** [error_rate_window]: [None] becomes [[]] in [__post_init__]. *)
Definition get_window (o : option json) : option (list json) :=
  match o with
  | None | Some JNull => Some []
  | Some (JArr l) => Some l
  | Some _ => None
  end.

Definition cb_fields : gset string :=
  {[ "is_open"; "failure_count"; "last_failure_time"; "last_success_time";
     "next_attempt_time" ]}.

(** [CircuitBreakerState] applied to the keywords of [cb_data]: a [TypeError] when [cb_data] is not
    a mapping or names a keyword the dataclass does not have. *)
Definition cb_from_json (j : json) : decoded CircuitBreakerState :=
  match j with
  | JObj m =>
      if bool_decide (dom m ⊆ cb_fields) then
        match get_bool (m !! "is_open") false,
              get_int (m !! "failure_count") 0%Z,
              get_float (m !! "last_failure_time") 0%Q,
              get_float (m !! "last_success_time") 0%Q,
              get_float (m !! "next_attempt_time") 0%Q with
        | Some o, Some fc, Some lf, Some ls, Some na =>
            Built (mkCircuitBreakerState o fc lf ls na)
        | _, _, _, _, _ => Untyped
        end
      else Raises
  | _ => Raises
  end.

(** [for name, cb_data in data.get('circuit_breaker_states', {}).items()]:
    an [AttributeError] when the value is not a dict; otherwise every entry
    is built, and the loop raises as soon as one of them does. *)
Definition cb_states_from_json (o : option json)
  : decoded (gmap string CircuitBreakerState) :=
  match o with
  | None => Built ∅
  | Some (JObj m) =>
      if existsb (λ kv, is_raises (cb_from_json kv.2)) (map_to_list m)
      then Raises
      else if existsb (λ kv, is_untyped (cb_from_json kv.2)) (map_to_list m)
      then Untyped
      else Built (omap (λ j, built (cb_from_json j)) m)
  | Some _ => Raises
  end.

Definition state_fields : gset string :=
  {[ "current_pool"; "last_alert_times"; "error_rate_window"; "file_position";
     "file_inode"; "circuit_breaker_states"; "last_health_check";
     "startup_time" ]}.

(** The body of the [try] block of [load_state] after [json.load]:
    [data.get] (an [AttributeError] unless [data] is a dict), the breaker
    loop, then [WatcherState] applied to the keywords of [data] (a [TypeError]
    on an unknown keyword)
    and its [__post_init__]. *)
Definition state_from_json (now : Q) (j : json) : decoded WatcherState :=
  match j with
  | JObj data =>
      match cb_states_from_json (data !! "circuit_breaker_states") with
      | Raises => Raises
      | cbs =>
          if bool_decide (dom data ⊆ state_fields) then
            match built cbs,
                  get_opt_str (data !! "current_pool"),
                  get_alert_times (data !! "last_alert_times"),
                  get_window (data !! "error_rate_window"),
                  get_int (data !! "file_position") 0%Z,
                  get_opt_int (data !! "file_inode"),
                  get_float (data !! "last_health_check") 0%Q,
                  get_float (data !! "startup_time") 0%Q with
            | Some cb, Some cp, Some la, Some ew, Some fp, Some fi, Some hc, Some st =>
                Built (mkWatcherState cp la ew fp fi cb hc (post_init_startup now st))
            | _, _, _, _, _, _, _, _ => Untyped
            end
          else Raises
      end
  | _ => Raises
  end.

(** ** The file system seen by [StateManager] *)

(** What a state file holds: bytes that do not decode as text, so that
    [read()] raises [UnicodeDecodeError]; text on which [json.load] raises
    (the empty text of a file just truncated and a partly written document
    are of that kind); or the value [json.load] returns for it. *)
Inductive file_content : Type :=
  | Undecodable
  | Garbage
  | Doc (j : json).

(** How writing a path fails: [open(path, 'w')] raises and the file is not
    touched; [open] succeeds, which truncates the file, and the write
    ([dst.write], or [json.dump] on an I/O error or on a value it cannot
    serialise) raises before the text is complete; [os.rename] onto the
    path raises. *)
Inductive write_fault : Type :=
  | OpenFails
  | WriteFails
  | RenameFails.

(** [files]: the existing paths and their contents ([os.path.exists] is
    membership); an existing file can be opened for reading.
    [unwritable]: the paths that cannot be written, each with the way the
    attempt fails. *)
Record Disk : Type := mkDisk {
  files : gmap string file_content;
  unwritable : gmap string write_fault
}.

Definition write_file (path : string) (c : file_content) (d : Disk) : Disk :=
  {| files := <[path := c]> (files d); unwritable := unwritable d |}.

(** [os.rename(src, dst)] of an existing [src]. *)
Definition rename_file (src dst : string) (d : Disk) : Disk :=
  match files d !! src with
  | Some c => {| files := <[dst := c]> (delete src (files d));
                 unwritable := unwritable d |}
  | None => d
  end.

(** ** class StateManager *)

Record StateManager : Type := mkStateManager {
  state_path : string;
  backup_path : string;
  state : WatcherState
}.

Definition set_state (s : WatcherState) (sm : StateManager) : StateManager :=
  {| state_path := state_path sm; backup_path := backup_path sm; state := s |}.

Definition temp_path (sm : StateManager) : string := state_path sm ++ ".tmp".

(** [with open(path, 'w') as f: f.write(text)] for a text that reads back
    as [c]: the disk afterwards, and whether the block ended without an
    exception. *)
Definition write_text (path : string) (c : file_content) (d : Disk) : Disk * bool :=
  match unwritable d !! path with
  | Some OpenFails => (d, false)
  | Some WriteFails => (write_file path Garbage d, false)
  | Some RenameFails | None => (write_file path c d, true)
  end.

(** The [if os.path.exists(self.state_path)] block of [save_state]: the
    primary is opened for reading, the backup for writing, and
    [dst.write(src.read())] copies the text.  When the primary does not
    decode, [src.read()] raises after [open] has truncated the backup. *)
Definition backup_primary (d : Disk) (sm : StateManager) : Disk * bool :=
  match files d !! state_path sm with
  | None => (d, true)
  | Some Undecodable =>
      ((write_text (backup_path sm) Garbage d).1, false)
  | Some c => write_text (backup_path sm) c d
  end.

(** [save_state]: copy the primary file over the backup when the primary
    exists, dump the state to the temporary file, rename it over the
    primary.  Any exception is caught and turns into [False]; what was
    written before it stays written: a truncated backup, a partly written
    temporary file, or a complete temporary file that could not be
    renamed. *)
Definition save_state (d : Disk) (sm : StateManager) : Disk * bool :=
  match backup_primary d sm with
  | (d1, false) => (d1, false)
  | (d1, true) =>
      match write_text (temp_path sm) (Doc (state_to_json (state sm))) d1 with
      | (d2, false) => (d2, false)
      | (d2, true) =>
          match unwritable d2 !! state_path sm with
          | Some RenameFails => (d2, false)
          | _ => (rename_file (temp_path sm) (state_path sm) d2, true)
          end
      end
  end.

(** The [for path in [self.state_path, self.backup_path]] loop of
    [load_state]: the first path that exists and whose [try] block does not
    raise ends the loop. *)
Inductive load_outcome : Type :=
  | LoadedFrom (path : string) (s : WatcherState)
  | LoadedUntyped (path : string)
  | NothingLoaded.

Fixpoint load_paths (now : Q) (d : Disk) (paths : list string) : load_outcome :=
  match paths with
  | [] => NothingLoaded
  | path :: rest =>
      match files d !! path with
      | None => load_paths now d rest
      | Some Undecodable | Some Garbage => load_paths now d rest
      | Some (Doc j) =>
          match state_from_json now j with
          | Built s => LoadedFrom path s
          | Raises => load_paths now d rest
          | Untyped => LoadedUntyped path
          end
      end
  end.

(** The result of [load_state]: the manager after the call and the value
    returned, or the report that an object outside the typed records was
    installed from [path]. *)
Inductive load_result : Type :=
  | Returned (sm : StateManager) (ret : bool)
  | InstalledUntyped (path : string).

Definition load_state (now : Q) (d : Disk) (sm : StateManager) : load_result :=
  match load_paths now d [state_path sm; backup_path sm] with
  | LoadedFrom _ s => Returned (set_state s sm) true
  | LoadedUntyped path => InstalledUntyped path
  | NothingLoaded => Returned sm false
  end.

(** [StateManager.__init__]: the clock is read once by [WatcherState()]
    ([t0]) and once more by a state built from a file ([t1]). *)
Definition StateManager_init (t0 t1 : Q) (d : Disk) (path : string) : load_result :=
  load_state t1 d
    {| state_path := path; backup_path := path ++ ".backup";
       state := WatcherState_default t0 |}.

(** [update_file_position]: in memory only; the inode is stored unless it
    is [None]. *)
Definition update_file_position (position : Z) (inode : option Z)
    (sm : StateManager) : StateManager :=
  let s := state sm in
  set_state
    {| current_pool := current_pool s;
       last_alert_times := last_alert_times s;
       error_rate_window := error_rate_window s;
       file_position := position;
       file_inode := match inode with Some i => Some i | None => file_inode s end;
       circuit_breaker_states := circuit_breaker_states s;
       last_health_check := last_health_check s;
       startup_time := startup_time s |} sm.

Definition set_breakers (m : gmap string CircuitBreakerState)
    (sm : StateManager) : StateManager :=
  let s := state sm in
  set_state
    {| current_pool := current_pool s;
       last_alert_times := last_alert_times s;
       error_rate_window := error_rate_window s;
       file_position := file_position s;
       file_inode := file_inode s;
       circuit_breaker_states := m;
       last_health_check := last_health_check s;
       startup_time := startup_time s |} sm.

Definition breakers (sm : StateManager) : gmap string CircuitBreakerState :=
  circuit_breaker_states (state sm).

(** [get_circuit_breaker]: the stored breaker, after storing a default one
    when the component has none. *)
Definition get_circuit_breaker (comp : string) (sm : StateManager)
    : CircuitBreakerState * StateManager :=
  match breakers sm !! comp with
  | Some cb => (cb, sm)
  | None =>
      (CircuitBreakerState_default,
       set_breakers (<[comp := CircuitBreakerState_default]> (breakers sm)) sm)
  end.

(** [update_circuit_breaker]: store, then [save_state] (its result is
    dropped). *)
Definition update_circuit_breaker (comp : string) (cb : CircuitBreakerState)
    (d : Disk) (sm : StateManager) : Disk * StateManager :=
  let sm' := set_breakers (<[comp := cb]> (breakers sm)) sm in
  ((save_state d sm').1, sm').

(** ** The accessors of the alerting layer *)

Definition set_pool (pool : option string) (sm : StateManager) : StateManager :=
  let s := state sm in
  set_state
    {| current_pool := pool;
       last_alert_times := last_alert_times s;
       error_rate_window := error_rate_window s;
       file_position := file_position s;
       file_inode := file_inode s;
       circuit_breaker_states := circuit_breaker_states s;
       last_health_check := last_health_check s;
       startup_time := startup_time s |} sm.

Definition set_alert_times (m : gmap string Q) (sm : StateManager) : StateManager :=
  let s := state sm in
  set_state
    {| current_pool := current_pool s;
       last_alert_times := m;
       error_rate_window := error_rate_window s;
       file_position := file_position s;
       file_inode := file_inode s;
       circuit_breaker_states := circuit_breaker_states s;
       last_health_check := last_health_check s;
       startup_time := startup_time s |} sm.

Definition set_window (l : list json) (sm : StateManager) : StateManager :=
  let s := state sm in
  set_state
    {| current_pool := current_pool s;
       last_alert_times := last_alert_times s;
       error_rate_window := l;
       file_position := file_position s;
       file_inode := file_inode s;
       circuit_breaker_states := circuit_breaker_states s;
       last_health_check := last_health_check s;
       startup_time := startup_time s |} sm.

(** [update_pool_state]: nothing happens when the pool is the current one;
    otherwise it is stored and the state saved. *)
Definition update_pool_state (pool : string) (d : Disk) (sm : StateManager)
    : Disk * StateManager :=
  if bool_decide (current_pool (state sm) = Some pool) then (d, sm)
  else
    let sm' := set_pool (Some pool) sm in
    ((save_state d sm').1, sm').

(** [get_alert_cooldown]: [max(0, last_time - time.time())], with 0 for an
    alert type never recorded. *)
Definition get_alert_cooldown (now : Q) (alert_type : string) (sm : StateManager)
    : Q :=
  let last_time := default 0%Q (last_alert_times (state sm) !! alert_type) in
  Qmax 0 (last_time - now).

(** [set_alert_time]; [alert_time = None] stands for the omitted argument,
    replaced by the clock reading [now]. *)
Definition set_alert_time (now : Q) (alert_type : string) (alert_time : option Q)
    (d : Disk) (sm : StateManager) : Disk * StateManager :=
  let t := default now alert_time in
  let sm' := set_alert_times (<[alert_type := t]> (last_alert_times (state sm))) sm in
  ((save_state d sm').1, sm').

(** The Python slice [l[-w:]]: the last [w] elements for a positive [w],
    the whole list for 0, and [l[k:]] for [w = -k] negative. *)
Definition slice_last {A : Type} (w : Z) (l : list A) : list A :=
  if (0 <? w)%Z then drop (length l - Z.to_nat w) l
  else drop (Z.to_nat (- w)) l.

(** [add_request_to_window].  [window_env] is what
    [int(os.getenv('WINDOW_SIZE', '200'))] evaluates to, [None] when the
    variable does not read as an integer: the [ValueError] then leaves the
    method after the append ([inr]). *)
Definition add_request_to_window (window_env : option Z) (request_data : json)
    (d : Disk) (sm : StateManager) : Disk * StateManager + StateManager :=
  let sm1 := set_window (error_rate_window (state sm) ++ [request_data]) sm in
  match window_env with
  | None => inr sm1
  | Some window_size =>
      let sm2 :=
        if (window_size <? Z.of_nat (length (error_rate_window (state sm1))))%Z
        then set_window (slice_last window_size (error_rate_window (state sm1))) sm1
        else sm1 in
      if (Z.of_nat (length (error_rate_window (state sm2))) mod 10 =? 0)%Z
      then inl ((save_state d sm2).1, sm2)
      else inl (d, sm2)
  end.

End Models.

(* ===================================================================== *)
(** * error_handler.py *)
(* ===================================================================== *)

Module Handler.
Import Models.

(** ** Settings fixed by [ErrorHandler.__init__] *)

Definition max_retries : gmap string Z :=
  <["file_operation" := 5%Z]>
  (<["stream_error" := 3%Z]>
  (<["permission_error" := 10%Z]>
  (<["network_error" := 3%Z]> ∅))).

Definition base_backoff : Q := 1%Q.
Definition max_backoff : Q := 30%Q.
Definition cb_failure_threshold : Z := 5%Z.
Definition cb_timeout : Q := 60%Q.

(** ** class ErrorHandler *)

Record ErrorHandler : Type := mkErrorHandler {
  state_manager : StateManager;
  error_contexts : gmap string ErrorContext
}.

(** ** classify_error *)

(** [str.lower] on the UTF-8 bytes of the message.  The letters A-Z fold
    to a-z.  Two characters outside ASCII have a lower-case form with an
    ASCII letter in it, and are written out: U+212A KELVIN SIGN (bytes
    226 132 170) becomes k, and U+0130, the capital I with a dot above
    (bytes 196 176), becomes i followed by U+0307 (bytes 204 135).  The
    lower-case form of any other character is made of characters outside
    ASCII; its bytes are left as they are, which changes no answer of the
    tests [pattern in error_msg] below, whose patterns are ASCII. *)
Definition lower_char (c : ascii) : ascii :=
  let n := N_of_ascii c in
  if ((65 <=? n) && (n <=? 90))%N then ascii_of_N (n + 32) else c.

Fixpoint lower (s : string) : string :=
  match s with
  | EmptyString => EmptyString
  | String c t =>
      match N_of_ascii c, t with
      | 226%N, String c1 (String c2 t') =>
          if ((N_of_ascii c1 =? 132) && (N_of_ascii c2 =? 170))%N
          then String "k" (lower t')
          else String c (lower t)
      | 196%N, String c1 t' =>
          if (N_of_ascii c1 =? 176)%N
          then String "i" (String "204" (String "135" (lower t')))
          else String c (lower t)
      | _, _ => String (lower_char c) (lower t)
      end
  end.

(** [pat in s] *)
Fixpoint contains (pat s : string) : bool :=
  String.prefix pat s ||
  match s with
  | EmptyString => false
  | String _ t => contains pat t
  end.

Definition classify_error (error : string) : string :=
  let error_msg := lower error in
  if contains "underlying stream is not seekable" error_msg then "stream_error"
  else if contains "permission denied" error_msg || contains "access denied" error_msg
  then "permission_error"
  else if contains "no such file" error_msg || contains "file not found" error_msg
  then "file_not_found"
  else if contains "connection" error_msg || contains "network" error_msg
  then "network_error"
  else if contains "disk" error_msg || contains "space" error_msg
  then "disk_error"
  else "unknown_error".

(** ** _get_recovery_action *)

Definition set_attempt (n : Z) (t : Q) (msg : string) (c : ErrorContext)
    : ErrorContext :=
  {| error_type := error_type c; component := component c;
     attempt_count := n; last_attempt_time := t; error_message := msg |}.

Definition _get_recovery_action (error_type : string) (context : ErrorContext)
    : RecoveryAction :=
  let max_attempts := default 3%Z (max_retries !! error_type) in
  if (max_attempts <? attempt_count context)%Z then
    if bool_decide (error_type ∈ ["stream_error"; "file_not_found"])
    then RESTART_COMPONENT
    else FATAL_EXIT
  else if bool_decide (error_type = "stream_error") then
    if (attempt_count context =? 1)%Z then RETRY_IMMEDIATE
    else RETRY_WITH_BACKOFF
  else if bool_decide (error_type ∈ ["file_not_found"; "permission_error"])
  then RETRY_WITH_BACKOFF
  else if bool_decide (error_type = "network_error") then RETRY_WITH_BACKOFF
  else RETRY_WITH_BACKOFF.

Definition should_retry (error_type : string) (attempt_count : Z) : bool :=
  let max_attempts := default 3%Z (max_retries !! error_type) in
  (attempt_count <=? max_attempts)%Z.

(** ** get_backoff_delay *)

(** The Python value of [2 ** e]: an [int] for [e >= 0]; for a negative
    exponent the float power [2.0 ** float(e)], exact down to the smallest
    subnormal [2^-1074] and [0.0] below it.  [None] is the [OverflowError]
    of [float(e)] for an exponent that rounds to [2^1024] in magnitude. *)
Definition pow2 (e : Z) : option (Z + Q) :=
  if (0 <=? e)%Z then Some (inl (2 ^ e)%Z)
  else if (e <=? - (2 ^ 1024 - 2 ^ 970))%Z then None
  else Some (inr (if (e <? -1074)%Z then 0%Q else (1 # Z.to_pos (2 ^ (- e)))%Q)).

(** The conversion of an [int] operand to [float] in [float * int]:
    [OverflowError] ([None]) from [2^1024] on.  It is applied to powers of
    two only, which convert exactly below that bound. *)
Definition int_to_float (z : Z) : option Q :=
  if (Z.abs z <? 2 ^ 1024)%Z then Some (inject_Z z) else None.

(** [self.base_backoff * x] *)
Definition mul_base (x : Z + Q) : option Q :=
  match x with
  | inl z => (λ f, base_backoff * f)%Q <$> int_to_float z
  | inr f => Some (base_backoff * f)%Q
  end.

(** [get_backoff_delay]; [None] is the [OverflowError] of the power or of
    the product. *)
Definition get_backoff_delay (attempt : Z) : option Q :=
  (λ delay, Qmin delay max_backoff) <$> (pow2 (attempt - 1) ≫= mul_base).

(** ** The circuit breaker *)

Definition set_breaker (comp : string) (cb : CircuitBreakerState)
    (sm : StateManager) : StateManager :=
  set_breakers (<[comp := cb]> (breakers sm)) sm.

Definition _count_recent_failures (context : ErrorContext) (now : Q) : Z :=
  attempt_count context.

(** [_should_circuit_break].  [cb_state] is the object stored for [comp],
    so the assignments to its attributes change that entry; [now] is the
    reading of [time.time()]. *)
Definition _should_circuit_break (now : Q) (comp : string)
    (cb_state : CircuitBreakerState) (context : ErrorContext)
    (d : Disk) (sm : StateManager) : bool * Disk * StateManager :=
  if is_open cb_state then
    if Qle_bool (next_attempt_time cb_state) now then
      (false, d,
       set_breaker comp
         {| is_open := false;
            failure_count := failure_count cb_state;
            last_failure_time := last_failure_time cb_state;
            last_success_time := last_success_time cb_state;
            next_attempt_time := next_attempt_time cb_state |} sm)
    else (true, d, sm)
  else if (cb_failure_threshold <=? attempt_count context)%Z
          && (cb_failure_threshold <=? _count_recent_failures context now)%Z then
    let cb' :=
      {| is_open := true;
         failure_count := _count_recent_failures context now;
         last_failure_time := now;
         last_success_time := last_success_time cb_state;
         next_attempt_time := (now + cb_timeout)%Q |} in
    let '(d', sm') :=
      update_circuit_breaker (component context) cb' d (set_breaker comp cb' sm) in
    (true, d', sm')
  else (false, d, sm).

Definition context_key (comp error_type : string) : string :=
  comp ++ "_" ++ error_type.

(** [handle_error].  [t_ctx] is the clock reading stored in the context,
    [now] the later one taken by [_should_circuit_break]. *)
Definition handle_error (t_ctx now : Q) (error : string) (comp : string)
    (d : Disk) (h : ErrorHandler) : RecoveryAction * Disk * ErrorHandler :=
  let error_type := classify_error error in
  let key := context_key comp error_type in
  let context0 :=
    default {| error_type := error_type; component := comp;
               attempt_count := 0%Z; last_attempt_time := 0%Q;
               error_message := error |}
            (error_contexts h !! key) in
  let context := set_attempt (attempt_count context0 + 1)%Z t_ctx error context0 in
  let contexts := <[key := context]> (error_contexts h) in
  let '(cb_state, sm1) := get_circuit_breaker comp (state_manager h) in
  let '(break, d', sm2) := _should_circuit_break now comp cb_state context d sm1 in
  (if break then CIRCUIT_BREAKER else _get_recovery_action error_type context,
   d', {| state_manager := sm2; error_contexts := contexts |}).

(** [record_success]; [now] is the reading of [time.time()]. *)
Definition record_success (now : Q) (comp : string) (d : Disk) (h : ErrorHandler)
    : Disk * ErrorHandler :=
  let '(cb_state, sm1) := get_circuit_breaker comp (state_manager h) in
  let '(d', sm2) :=
    if is_open cb_state then
      let cb' :=
        {| is_open := false;
           failure_count := 0%Z;
           last_failure_time := last_failure_time cb_state;
           last_success_time := now;
           next_attempt_time := next_attempt_time cb_state |} in
      update_circuit_breaker comp cb' d (set_breaker comp cb' sm1)
    else (d, sm1) in
  (d', {| state_manager := sm2;
          error_contexts :=
            filter (λ kv, String.prefix comp kv.1 = false) (error_contexts h) |}).

(** [trigger_circuit_breaker] *)
Definition trigger_circuit_breaker (now : Q) (comp : string) (d : Disk)
    (h : ErrorHandler) : Disk * ErrorHandler :=
  let '(cb_state, sm1) := get_circuit_breaker comp (state_manager h) in
  let cb' :=
    {| is_open := true;
       failure_count := failure_count cb_state;
       last_failure_time := last_failure_time cb_state;
       last_success_time := last_success_time cb_state;
       next_attempt_time := (now + cb_timeout)%Q |} in
  let '(d', sm2) := update_circuit_breaker comp cb' d (set_breaker comp cb' sm1) in
  (d', {| state_manager := sm2; error_contexts := error_contexts h |}).

(** [is_circuit_open]: the answer, and the handler after the call (the
    lookup stores a default breaker for an unknown component). *)
Definition is_circuit_open (now : Q) (comp : string) (h : ErrorHandler)
    : bool * ErrorHandler :=
  let '(cb_state, sm1) := get_circuit_breaker comp (state_manager h) in
  (if is_open cb_state && Qle_bool (next_attempt_time cb_state) now
   then false else is_open cb_state,
   {| state_manager := sm1; error_contexts := error_contexts h |}).

End Handler.

(* ===================================================================== *)
(** * log_file_manager.py *)
(* ===================================================================== *)

Module Tailer.
Import Models Handler.

(** A file object the manager keeps from one call to the next: the bytes
    of the regular file it was opened on and the stream position [tell()]
    reports.  Such an object has passed a [seek] in [_ensure_file_open],
    which otherwise closes it before raising: it is seekable, and its
    [tell] and its [seek] to a non-negative offset succeed.  The position
    is a count of bytes, which is what [tell()] answers on a text of ASCII
    characters without carriage return (see [_read_lines]). *)
Record Handle : Type := mkHandle {
  h_data : string;
  h_pos : Z
}.

(** What [open(self.current_path, 'r', ...)] returns: a stream on a regular
    file holding [data], or a stream that is not seekable (the path is a
    FIFO or a pipe), on which [seek] and [tell] raise "underlying stream is
    not seekable".  A text stands for the regular file holding it. *)
Inductive Stream : Type :=
  | RegularFile (data : string)
  | NonSeekable.

Coercion RegularFile : string >-> Stream.

(** The fields of [os.stat] the code reads. *)
Record FileStat : Type := mkFileStat {
  st_ino : Z;
  st_size : Z
}.

(** What the calls on [current_path] answer during one method call:
    [os.path.exists]; [open] ([None]: it raises); [os.stat] ([None]: it
    raises [OSError]).  The three are independent, as they are for a file
    that another process replaces or removes. *)
Record World : Type := mkWorld {
  path_exists : bool;
  open_result : option Stream;
  stat_result : option FileStat
}.

(** class LogFileManager.  The manager is built on the [StateManager] of its
    [ErrorHandler]: both names denote one object, kept once, inside
    [error_handler]. *)
Record LogFileManager : Type := mkLogFileManager {
  error_handler : ErrorHandler;
  current_file : option Handle;
  current_path : option string;
  current_inode : option Z;
  last_position : Z
}.

Definition manager_state (fm : LogFileManager) : WatcherState :=
  state (state_manager (error_handler fm)).

Definition on_state_manager (f : StateManager → StateManager)
    (fm : LogFileManager) : LogFileManager :=
  {| error_handler :=
       {| state_manager := f (state_manager (error_handler fm));
          error_contexts := error_contexts (error_handler fm) |};
     current_file := current_file fm;
     current_path := current_path fm;
     current_inode := current_inode fm;
     last_position := last_position fm |}.

Definition set_handler (h : ErrorHandler) (fm : LogFileManager) : LogFileManager :=
  {| error_handler := h;
     current_file := current_file fm;
     current_path := current_path fm;
     current_inode := current_inode fm;
     last_position := last_position fm |}.

Definition set_file (f : option Handle) (ino : option Z) (fm : LogFileManager)
    : LogFileManager :=
  {| error_handler := error_handler fm;
     current_file := f;
     current_path := current_path fm;
     current_inode := ino;
     last_position := last_position fm |}.

Definition set_last_position (p : Z) (fm : LogFileManager) : LogFileManager :=
  {| error_handler := error_handler fm;
     current_file := current_file fm;
     current_path := current_path fm;
     current_inode := current_inode fm;
     last_position := p |}.

(** A returned value or a propagated exception. *)
Inductive outcome (A : Type) : Type :=
  | Ret (a : A)
  | Raise.
Arguments Ret {A} a.
Arguments Raise {A}.

(** The [try] statement of [_close_file] on the file object held in
    [self.current_file], [told] being what its [tell()] answers ([None]: it
    raises, as it does on a stream that is not seekable).  When [tell()]
    answers, the position goes to the state manager; when it raises,
    [update_file_position] is skipped and the [except] clause prints.  An
    exception of [close()] is caught in the same way.  The [finally] clause
    forgets the file object and the inode in every case. *)
Definition close_with (told : option Z) (fm : LogFileManager) : LogFileManager :=
  set_file None None
    match told with
    | Some final_pos =>
        on_state_manager (update_file_position final_pos (current_inode fm)) fm
    | None => fm
    end.

(** [_close_file] on a manager as it is between two calls, where the file
    object is a [Handle]. *)
Definition _close_file (fm : LogFileManager) : LogFileManager :=
  match current_file fm with
  | Some h => close_with (Some (h_pos h)) fm
  | None => fm
  end.

(** Python truth value of an [Optional[int]]. *)
Definition truthy (o : option Z) : bool :=
  match o with
  | Some i => negb (i =? 0)%Z
  | None => false
  end.

(** [_ensure_file_open]; [now] is the clock reading used by
    [record_success].  Every exception of the [try] block goes through
    [_close_file] and is raised again.  On a stream that is not seekable
    the [try] block always raises: [os.stat] does, or else the [seek] of
    either branch; [_close_file] then runs on the new file object, whose
    [tell()] raises as well. *)
Definition _ensure_file_open (now : Q) (w : World) (d : Disk)
    (fm : LogFileManager) : outcome bool * Disk * LogFileManager :=
  match current_file fm with
  | Some _ => (Ret true, d, fm)
  | None =>
      match current_path fm with
      | None => (Raise, d, fm)
      | Some _ =>
          if negb (path_exists w) then (Ret false, d, fm)
          else
            match open_result w with
            | None => (Raise, d, _close_file fm)
            | Some NonSeekable => (Raise, d, close_with None fm)
            | Some (RegularFile data) =>
                let fm1 := set_file (Some (mkHandle data 0)) (current_inode fm) fm in
                match stat_result w with
                | None => (Raise, d, _close_file fm1)
                | Some file_stat =>
                    let fm2 :=
                      set_file (current_file fm1) (Some (st_ino file_stat)) fm1 in
                    let file_size := st_size file_stat in
                    let saved_position := file_position (manager_state fm2) in
                    let saved_inode := file_inode (manager_state fm2) in
                    if bool_decide (saved_inode = current_inode fm2)
                       && (saved_position <=? file_size)%Z then
                      if (saved_position <? 0)%Z then (Raise, d, _close_file fm2)
                      else
                        let fm3 :=
                          set_last_position saved_position
                            (set_file (Some (mkHandle data saved_position))
                                      (current_inode fm2) fm2) in
                        let fm4 :=
                          on_state_manager
                            (update_file_position (last_position fm3)
                                                  (current_inode fm3)) fm3 in
                        let '(d', h') :=
                          record_success now "file_manager" d (error_handler fm4) in
                        (Ret true, d', set_handler h' fm4)
                    else
                      let eof := Z.of_nat (String.length data) in
                      let fm3 :=
                        set_last_position eof
                          (set_file (Some (mkHandle data eof))
                                    (current_inode fm2) fm2) in
                      let fm4 :=
                        on_state_manager
                          (update_file_position (last_position fm3)
                                                (current_inode fm3)) fm3 in
                      let '(d', h') :=
                        record_success now "file_manager" d (error_handler fm4) in
                      (Ret true, d', set_handler h' fm4)
                end
            end
      end
  end.

(** ** _read_lines *)

Definition LF : ascii := "010"%char.
Definition CR : ascii := "013"%char.

Fixpoint drop_bytes (n : nat) (s : string) : string :=
  match n, s with
  | O, _ => s
  | S n', String _ t => drop_bytes n' t
  | S _, EmptyString => EmptyString
  end.

(** The successive results of [readline()] on [s], line ends kept, for a
    text [s] of ASCII characters without carriage return.  (The file is
    opened with universal newlines: a carriage return would end a line too
    and be returned as a line feed.) *)
Fixpoint split_lines (s : string) : list string :=
  match s with
  | EmptyString => []
  | String c t =>
      if Ascii.eqb c LF then String c EmptyString :: split_lines t
      else match split_lines t with
           | [] => [String c EmptyString]
           | l :: ls => String c l :: ls
           end
  end.

(** [line.rstrip] of line feeds and carriage returns. *)
Fixpoint rstrip (s : string) : string :=
  match s with
  | EmptyString => EmptyString
  | String c t =>
      match rstrip t with
      | EmptyString =>
          if Ascii.eqb c LF || Ascii.eqb c CR then EmptyString
          else String c EmptyString
      | t' => String c t'
      end
  end.

(** One turn of the [while True] loop for a non-empty [line] returned by
    [readline()]: the handle moves past the line, [last_position] follows
    it, and the position is handed to the state manager when
    [self.last_position % 50 == 0].  The position after the line is the
    count of bytes read so far, which is what [tell()] answers on a text of
    ASCII characters without carriage return.  (After a line that ends in a
    carriage return [tell()] answers a number that also encodes the state of
    the decoder.) *)
Definition read_step (line : string) (fm : LogFileManager) : LogFileManager :=
  match current_file fm with
  | None => fm
  | Some h =>
      let pos := (h_pos h + Z.of_nat (String.length line))%Z in
      let fm1 :=
        set_last_position pos
          (set_file (Some (mkHandle (h_data h) pos)) (current_inode fm) fm) in
      if (last_position fm1 mod 50 =? 0)%Z then
        on_state_manager
          (update_file_position (last_position fm1) (current_inode fm1)) fm1
      else fm1
  end.

(** The lines [readline()] will return from the current position. *)
Definition pending_lines (fm : LogFileManager) : list string :=
  match current_file fm with
  | None => []
  | Some h => split_lines (drop_bytes (Z.to_nat (h_pos h)) (h_data h))
  end.

(** The generator run to exhaustion when no [readline()] raises: every
    yielded line with the manager as it is at that [yield]. *)
Fixpoint read_run (lines : list string) (fm : LogFileManager)
    : list (string * LogFileManager) :=
  match lines with
  | [] => []
  | line :: rest =>
      let fm' := read_step line fm in
      (rstrip line, fm') :: read_run rest fm'
  end.

Definition _read_lines (fm : LogFileManager) : list (string * LogFileManager) :=
  read_run (pending_lines fm) fm.

(** The offset held by the state manager at each [yield] of a run. *)
Definition stored_offsets (run : list (string * LogFileManager)) : list Z :=
  map (λ y, file_position (manager_state y.2)) run.

(** ** detect_rotation *)

Definition path_missing (fm : LogFileManager) (w : World) : bool :=
  match current_path fm with
  | None => true
  | Some p => bool_decide (p = "") || negb (path_exists w)
  end.

Definition detect_rotation (w : World) (fm : LogFileManager) : bool :=
  if path_missing fm w then true
  else
    match stat_result w with
    | None => true
    | Some current_stat =>
        if truthy (current_inode fm)
           && negb (bool_decide (Some (st_ino current_stat) = current_inode fm))
        then true
        else
          match current_file fm with
          | Some h => (st_size current_stat <? h_pos h - 1000)%Z
          | None => false
          end
    end.

(** ** reopen_file and get_file_position *)

(** The two assignments of [reopen_file]: [file_position = 0] and
    [file_inode = None]. *)
Definition forget_position (sm : StateManager) : StateManager :=
  let s := state sm in
  set_state
    {| current_pool := current_pool s;
       last_alert_times := last_alert_times s;
       error_rate_window := error_rate_window s;
       file_position := 0%Z;
       file_inode := None;
       circuit_breaker_states := circuit_breaker_states s;
       last_health_check := last_health_check s;
       startup_time := startup_time s |} sm.

(** [reopen_file]: close, forget the saved position, open again. *)
Definition reopen_file (now : Q) (w : World) (d : Disk) (fm : LogFileManager)
    : outcome bool * Disk * LogFileManager :=
  _ensure_file_open now w d (on_state_manager forget_position (_close_file fm)).

(** [get_file_position] when [self.current_file] holds a file object,
    [told] being what its [tell()] answers ([None]: it raises, and the bare
    [except] falls through to [last_position]). *)
Definition position_with (told : option Z) (fm : LogFileManager) : Z :=
  match told with
  | Some pos => pos
  | None => last_position fm
  end.

(** [get_file_position] on a manager as it is between two calls. *)
Definition get_file_position (fm : LogFileManager) : Z :=
  match current_file fm with
  | Some h => position_with (Some (h_pos h)) fm
  | None => last_position fm
  end.

(** ** watch_file *)

(** What the loop does before its next turn. *)
Inductive pause : Type :=
  | Immediately
  | WaitForFile
  | Poll
  | BackOff (delay : Q)
  | RestartPause
  | BreakerPause.

(** The [except Exception as e] clause of [watch_file] for an exception of
    text [error]; [t_ctx] and [now] are the clock readings of
    [handle_error].  [None]: an exception leaves the generator (the
    re-raised one on FATAL_EXIT, or the [OverflowError] of
    [get_backoff_delay]). *)
Definition on_failure (t_ctx now : Q) (error : string) (d : Disk)
    (fm : LogFileManager) : option pause * Disk * LogFileManager :=
  let '(recovery_action, d', h') :=
    handle_error t_ctx now error "file_manager" d (error_handler fm) in
  let fm1 := set_handler h' fm in
  match recovery_action with
  | RETRY_IMMEDIATE => (Some Immediately, d', _close_file fm1)
  | RETRY_WITH_BACKOFF =>
      let fm2 := _close_file fm1 in
      let attempt :=
        default 1%Z
          (attempt_count <$>
             error_contexts (error_handler fm2) !! "file_manager_stream_error") in
      (BackOff <$> get_backoff_delay attempt, d', fm2)
  | RESTART_COMPONENT => (Some RestartPause, d', _close_file fm1)
  | CIRCUIT_BREAKER => (Some BreakerPause, d', fm1)
  | FATAL_EXIT => (None, d', fm1)
  end.

(** The manager once the generator [_read_lines] is exhausted. *)
Definition after_run (run : list (string * LogFileManager)) (fm : LogFileManager)
    : LogFileManager :=
  List.last (map snd run) fm.

(** One turn of the [while True] loop of [watch_file]: the lines it yields
    and what follows.  [w] answers the calls of [_ensure_file_open], [w_rot]
    those of [detect_rotation]; [error] is the text of the exception when
    the [try] block raises one. *)
Definition watch_turn (t_open t_ctx now : Q) (error : string) (w w_rot : World)
    (d : Disk) (fm : LogFileManager)
    : list string * option pause * Disk * LogFileManager :=
  match _ensure_file_open t_open w d fm with
  | (Raise, d1, fm1) =>
      let '(p, d2, fm2) := on_failure t_ctx now error d1 fm1 in
      ([], p, d2, fm2)
  | (Ret false, d1, fm1) => ([], Some WaitForFile, d1, fm1)
  | (Ret true, d1, fm1) =>
      let run := _read_lines fm1 in
      let fm2 := after_run run fm1 in
      if (0 <? Z.of_nat (length run))%Z then
        if detect_rotation w_rot fm2
        then (map fst run, Some Immediately, d1, _close_file fm2)
        else (map fst run, Some Poll, d1, fm2)
      else (map fst run, Some Poll, d1, fm2)
  end.

End Tailer.

(* ===================================================================== *)
(** * Observations on a handler, used to state its properties *)
(* ===================================================================== *)

Module Observe.
Import Models Handler Tailer.

(** The attempts already counted for a context key; 0 when the table has
    no entry, which is the count [handle_error] starts a new context at. *)
Definition attempts_so_far (h : ErrorHandler) (key : string) : Z :=
  default 0%Z (attempt_count <$> error_contexts h !! key).

(** The breaker stored for a component. *)
Definition breaker_of (h : ErrorHandler) (comp : string)
    : option CircuitBreakerState :=
  breakers (state_manager h) !! comp.

(** The per-kind budget of [_get_recovery_action]. *)
Definition max_attempts_of (kind : string) : Z :=
  default 3%Z (max_retries !! kind).

(** Every entry is stored under the key [handle_error] builds from its
    component and kind. *)
Definition keyed_by_owner (ctxs : gmap string ErrorContext) : Prop :=
  ∀ key c, ctxs !! key = Some c →
    key = context_key (component c) (error_type c).

(** A path [load_state] passes over: it does not exist, or its bytes are
    not text, or its text is not JSON, or building the state from its JSON
    raises. *)
Definition unusable (now : Q) (d : Disk) (path : string) : Prop :=
  match files d !! path with
  | None | Some Undecodable | Some Garbage => True
  | Some (Doc j) => state_from_json now j = Raises
  end.

(** The number of bytes of a series of lines. *)
Definition total_bytes (lines : list string) : nat :=
  sum_list_with String.length lines.

(** A text of ASCII characters without carriage return: the texts on which
    the lines of [readline()] end at line feeds only and [tell()] counts
    bytes. *)
Fixpoint plain_text (s : string) : bool :=
  match s with
  | EmptyString => true
  | String c t =>
      (N_of_ascii c <? 128)%N && negb (Ascii.eqb c CR) && plain_text t
  end.

(** A text with no line feed and no carriage return in it. *)
Fixpoint no_newline (s : string) : bool :=
  match s with
  | EmptyString => true
  | String c t => negb (Ascii.eqb c LF) && negb (Ascii.eqb c CR) && no_newline t
  end.

(** The lines one after the other, a line feed after each. *)
Fixpoint join_lines (lines : list string) : string :=
  match lines with
  | [] => EmptyString
  | l :: ls => l ++ String LF (join_lines ls)
  end.

(** [s] with a line feed added at its end, unless it is empty or ends in
    one already. *)
Fixpoint with_final_lf (s : string) : string :=
  match s with
  | EmptyString => EmptyString
  | String c t =>
      match t with
      | EmptyString =>
          if Ascii.eqb c LF then s else String c (String LF EmptyString)
      | String _ _ => String c (with_final_lf t)
      end
  end.

End Observe.

(* ===================================================================== *)
(** * Concrete managers, handlers and files used in the examples *)
(* ===================================================================== *)

Module Scenarios.
Import Models Handler Tailer.

Definition state_file : string := "/tmp/watcher_state.json".
Definition log_file : string := "/var/log/nginx/access.log".

(** A state as [WatcherState()] builds it at time 100, with the given
    offset, inode and breakers. *)
Definition state_with (position : Z) (inode : option Z)
    (cbs : gmap string CircuitBreakerState) : WatcherState :=
  {| current_pool := None; last_alert_times := ∅; error_rate_window := [];
     file_position := position; file_inode := inode;
     circuit_breaker_states := cbs;
     last_health_check := 0%Q; startup_time := 100%Q |}.

Definition manager_with (s : WatcherState) : StateManager :=
  {| state_path := state_file; backup_path := state_file ++ ".backup";
     state := s |}.

Definition handler_with (s : WatcherState) (ctxs : gmap string ErrorContext)
    : ErrorHandler :=
  {| state_manager := manager_with s; error_contexts := ctxs |}.

Definition tailer_with (s : WatcherState) (f : option Handle) (ino : option Z)
    (last : Z) : LogFileManager :=
  {| error_handler := handler_with s ∅; current_file := f;
     current_path := Some log_file; current_inode := ino;
     last_position := last |}.

Definition empty_disk : Disk := {| files := ∅; unwritable := ∅ |}.

(** A path that is a FIFO: [open] and [os.stat] succeed, the stream is not
    seekable. *)
Definition fifo_world : World :=
  {| path_exists := true; open_result := Some NonSeekable;
     stat_result := Some (mkFileStat 9 0) |}.

(** A log of three lines, nine bytes, with inode 7. *)
Definition short_log : string :=
  String "a" (String "b" (String LF
  (String "c" (String "d" (String LF
  (String "e" (String "f" (String LF EmptyString)))))))).

Definition short_log_world : World :=
  {| path_exists := true; open_result := Some short_log;
     stat_result := Some (mkFileStat 7 9) |}.

(** A state with every field in use, the breaker map and the fields of
    the alerting layer included. *)
Definition busy_state : WatcherState :=
  {| current_pool := Some "blue";
     last_alert_times := {[ "failover" := 12%Q ]};
     error_rate_window :=
       [JObj {[ "is_error" := JBool true ]}; JObj {[ "pool" := JStr "green" ]}];
     file_position := 150%Z;
     file_inode := Some 7%Z;
     circuit_breaker_states :=
       {[ "tailer" := {| is_open := true; failure_count := 5%Z;
                         last_failure_time := 5%Q; last_success_time := 0%Q;
                         next_attempt_time := 65%Q |} ]};
     last_health_check := 0%Q;
     startup_time := 100%Q |}.

(** A primary state file that is not JSON, next to a backup written from
    [busy_state]. *)
Definition corrupt_primary_disk : Disk :=
  {| files := <[state_file := Garbage]>
              (<[state_file ++ ".backup" := Doc (state_to_json busy_state)]> ∅);
     unwritable := ∅ |}.

(** Messages as the tail loop sees them. *)
Definition stream_failure : string := "underlying stream is not seekable".
Definition permission_failure : string := "[Errno 13] Permission denied".

(** [handle_error] on a series of failures of one component, each with the
    clock reading at which it is handled. *)
Fixpoint run_failures (comp : string) (failures : list (Q * string))
    (d : Disk) (h : ErrorHandler) : list RecoveryAction * Disk * ErrorHandler :=
  match failures with
  | [] => ([], d, h)
  | (t, error) :: rest =>
      let '(a, d1, h1) := handle_error t t error comp d h in
      let '(acts, d2, h2) := run_failures comp rest d1 h1 in
      (a :: acts, d2, h2)
  end.

Definition new_handler : ErrorHandler := handler_with (state_with 0 None ∅) ∅.

(** Five stream errors in a row at times 1 to 5. *)
Definition five_stream_failures : list (Q * string) :=
  [(1%Q, stream_failure); (2%Q, stream_failure); (3%Q, stream_failure);
   (4%Q, stream_failure); (5%Q, stream_failure)].

(** The handler after the five failures on the component tailer: its
    breaker is open until time 65. *)
Definition tripped : Disk * ErrorHandler :=
  let '(_, d, h) := run_failures "tailer" five_stream_failures empty_disk new_handler in
  (d, h).


(** Two components, the name of one a prefix of the name of the other: the
    breaker of file has been opened and then half-opened, and file_manager
    has one failure on record. *)
Definition two_components : Disk * ErrorHandler :=
  let '(_, d1, h1) :=
    run_failures "file" (five_stream_failures ++ [(70%Q, stream_failure)])
                 empty_disk new_handler in
  let '(_, d2, h2) := run_failures "file_manager" [(71%Q, stream_failure)] d1 h1 in
  (d2, h2).

(** [len - 1] letters and a line feed. *)
Fixpoint padded_line (len : nat) : string :=
  match len with
  | O => EmptyString
  | S O => String LF EmptyString
  | S k => String "x" (padded_line k)
  end.

Fixpoint repeat_line (n : nat) (line : string) : string :=
  match n with
  | O => EmptyString
  | S k => line ++ repeat_line k line
  end.

(** A log of three lines of 50 bytes each, read from offset 0. *)
Definition fifty_byte_lines : string := repeat_line 3 (padded_line 50).

Definition fifty_byte_tailer : LogFileManager :=
  tailer_with (state_with 0 (Some 7%Z) ∅)
    (Some (mkHandle fifty_byte_lines 0)) (Some 7%Z) 0.

(** A log of an empty line followed by 120 lines of 2 bytes each, read
    from offset 0: every line ends at an odd offset. *)
Definition odd_offset_lines : string :=
  padded_line 1 ++ repeat_line 120 (padded_line 2).

Definition odd_offset_tailer : LogFileManager :=
  tailer_with (state_with 0 (Some 7%Z) ∅)
    (Some (mkHandle odd_offset_lines 0)) (Some 7%Z) 0.

End Scenarios.

(* ===================================================================== *)
(** * Properties of the state store *)
(* ===================================================================== *)

Section StoreProperties.
Import Models Scenarios Observe.

(** ** Rebuilding what [asdict] wrote *)

Lemma cb_from_to_json (cb : CircuitBreakerState) :
  cb_from_json (cb_to_json cb) = Built cb.
Proof. destruct cb. vm_compute. reflexivity. Qed.

Lemma existsb_false_on {A : Type} (f : A → bool) (l : list A) :
  (∀ x, In x l → f x = false) → existsb f l = false.
Proof.
  intros Hall. destruct (existsb f l) eqn:E; [| done].
  apply existsb_exists in E as (x & Hin & Hx). by rewrite Hall in Hx.
Qed.

Lemma in_map_to_list_fmap {A B : Type} (f : A → B) (m : gmap string A)
    (kv : string * B) :
  In kv (map_to_list (f <$> m)) → ∃ a, m !! kv.1 = Some a ∧ kv.2 = f a.
Proof.
  intros Hin. apply list_elem_of_In, elem_of_map_to_list' in Hin.
  rewrite lookup_fmap in Hin. destruct (m !! kv.1) as [a |]; [| done].
  exists a. split; [done |]. by injection Hin.
Qed.

Lemma cb_states_from_to_json (m : gmap string CircuitBreakerState) :
  cb_states_from_json (Some (JObj (cb_to_json <$> m))) = Built m.
Proof.
  unfold cb_states_from_json.
  rewrite existsb_false_on.
  2: { intros [k j] Hin. apply in_map_to_list_fmap in Hin as (cb & _ & Hj).
       change (j = cb_to_json cb) in Hj. subst j.
       change (is_raises (cb_from_json (cb_to_json cb)) = false).
       by rewrite cb_from_to_json. }
  rewrite existsb_false_on.
  2: { intros [k j] Hin. apply in_map_to_list_fmap in Hin as (cb & _ & Hj).
       change (j = cb_to_json cb) in Hj. subst j.
       change (is_untyped (cb_from_json (cb_to_json cb)) = false).
       by rewrite cb_from_to_json. }
  f_equal. apply map_eq. intros i. rewrite lookup_omap, lookup_fmap.
  destruct (m !! i) as [cb |]; [| done].
  change (built (cb_from_json (cb_to_json cb)) = Some cb).
  by rewrite cb_from_to_json.
Qed.

Lemma alert_times_from_to_json (m : gmap string Q) :
  get_alert_times (Some (JObj (JFloat <$> m))) = Some m.
Proof.
  unfold get_alert_times.
  assert (Hall : forallb (λ kv : string * json,
                    bool_decide (is_Some (num_of_json kv.2)))
                   (map_to_list (JFloat <$> m)) = true).
  { apply forallb_forall. intros [k j] Hin.
    apply in_map_to_list_fmap in Hin as (q & _ & Hj).
    change (j = JFloat q) in Hj. subst j.
    apply bool_decide_eq_true_2. by eexists. }
  rewrite Hall. f_equal. apply map_eq. intros i.
  rewrite lookup_omap, lookup_fmap. by destruct (m !! i).
Qed.

Lemma post_init_startup_set (now st : Q) :
  ¬ (st == 0)%Q → post_init_startup now st = st.
Proof.
  intros Hst. unfold post_init_startup.
  destruct (Qeq_bool st 0) eqn:E; [| done].
  by apply Qeq_bool_iff in E.
Qed.

(** The eight keys of the object [save_state] dumps. *)
Lemma state_object_fields (v1 v2 v3 v4 v5 v6 v7 v8 : json) :
  let data : gmap string json :=
    <["current_pool" := v1]> (<["last_alert_times" := v2]>
    (<["error_rate_window" := v3]> (<["file_position" := v4]>
    (<["file_inode" := v5]> (<["circuit_breaker_states" := v6]>
    (<["last_health_check" := v7]> (<["startup_time" := v8]> ∅))))))) in
  bool_decide (dom data ⊆ state_fields) = true
  ∧ data !! "current_pool" = Some v1
  ∧ data !! "last_alert_times" = Some v2
  ∧ data !! "error_rate_window" = Some v3
  ∧ data !! "file_position" = Some v4
  ∧ data !! "file_inode" = Some v5
  ∧ data !! "circuit_breaker_states" = Some v6
  ∧ data !! "last_health_check" = Some v7
  ∧ data !! "startup_time" = Some v8.
Proof. vm_compute. repeat split; reflexivity. Qed.

(** A state whose start-up stamp is set is rebuilt as it is from the
    object [save_state] dumps for it. *)
Lemma state_from_to_json (now : Q) (s : WatcherState) :
  ¬ (startup_time s == 0)%Q →
  state_from_json now (state_to_json s) = Built s.
Proof.
  intros Hst. unfold state_from_json, state_to_json.
  destruct (state_object_fields
              (opt_to_json JStr (current_pool s))
              (JObj (JFloat <$> last_alert_times s))
              (JArr (error_rate_window s))
              (JInt (file_position s))
              (opt_to_json JInt (file_inode s))
              (JObj (cb_to_json <$> circuit_breaker_states s))
              (JFloat (last_health_check s))
              (JFloat (startup_time s)))
    as (Hdom & H1 & H2 & H3 & H4 & H5 & H6 & H7 & H8).
  cbv zeta in *.
  rewrite H6, cb_states_from_to_json, Hdom, H1, H2, H3, H4, H5, H7, H8.
  rewrite alert_times_from_to_json. cbn.
  rewrite post_init_startup_set by done.
  destruct s as [cp la ew fp fi cbs hc st]. cbn.
  by destruct cp, fi.
Qed.

(** A state built by a constructor while the clock does not read 0 has its
    start-up stamp set, as the lemma above requires. *)
Lemma startup_time_default (now : Q) :
  ¬ (now == 0)%Q → ¬ (startup_time (WatcherState_default now) == 0)%Q.
Proof. intros Hnow. by cbn. Qed.

Lemma post_init_startup_nonzero (now st : Q) :
  ¬ (now == 0)%Q → ¬ (post_init_startup now st == 0)%Q.
Proof.
  intros Hnow. unfold post_init_startup.
  destruct (Qeq_bool st 0) eqn:E; [done |]. by apply Qeq_bool_neq.
Qed.

Lemma startup_time_loaded (now : Q) (j : json) (s : WatcherState) :
  ¬ (now == 0)%Q → state_from_json now j = Built s →
  ¬ (startup_time s == 0)%Q.
Proof.
  intros Hnow Hs. unfold state_from_json in Hs.
  repeat case_match; try discriminate; injection Hs as <-; cbn;
    by apply post_init_startup_nonzero.
Qed.

(** ** save_state and load_state *)

Lemma set_state_same (sm : StateManager) : set_state (state sm) sm = sm.
Proof. by destruct sm. Qed.

(** A write that ended without an exception has written the text. *)
Lemma write_text_done (path : string) (c : file_content) (d : Disk) :
  (write_text path c d).2 = true →
  (write_text path c d).1 = write_file path c d.
Proof. unfold write_text. by destruct (unwritable d !! path) as [[| |] |]. Qed.

(** A write, failed or not, touches the written path only. *)
Lemma write_text_frame (path : string) (c : file_content) (d : Disk) :
  unwritable (write_text path c d).1 = unwritable d
  ∧ (∀ p, p ≠ path → files (write_text path c d).1 !! p = files d !! p).
Proof.
  unfold write_text.
  destruct (unwritable d !! path) as [[| |] |]; cbn; (split; [done |]);
    intros p Hp; by rewrite ?lookup_insert_ne.
Qed.

Lemma backup_primary_frame (d : Disk) (sm : StateManager) :
  unwritable (backup_primary d sm).1 = unwritable d
  ∧ (∀ p, p ≠ backup_path sm →
       files (backup_primary d sm).1 !! p = files d !! p).
Proof.
  unfold backup_primary.
  destruct (files d !! state_path sm) as [[| | j] |]; try apply write_text_frame.
  done.
Qed.

Lemma backup_primary_done (d : Disk) (sm : StateManager) :
  (backup_primary d sm).2 = true →
  (backup_primary d sm).1
  = match files d !! state_path sm with
    | Some c => write_file (backup_path sm) c d
    | None => d
    end.
Proof.
  unfold backup_primary.
  destruct (files d !! state_path sm) as [[| | j] |]; try done;
    apply write_text_done.
Qed.

(** What a successful [save_state] has done. *)
Lemma save_state_done (d : Disk) (sm : StateManager) :
  (save_state d sm).2 = true →
  (backup_primary d sm).2 = true
  ∧ (save_state d sm).1
    = rename_file (temp_path sm) (state_path sm)
        (write_file (temp_path sm) (Doc (state_to_json (state sm)))
           (backup_primary d sm).1).
Proof.
  unfold save_state.
  destruct (backup_primary d sm) as [d1 [|]]; [| done].
  pose proof (write_text_done (temp_path sm) (Doc (state_to_json (state sm))) d1) as Hw.
  destruct (write_text _ _ d1) as [d2 [|]]; [| done].
  cbn [fst snd] in *. rewrite <- (Hw eq_refl).
  by destruct (unwritable d2 !! state_path sm) as [[| |] |].
Qed.

(** A successful [save_state] leaves the dumped state in the primary
    file. *)
Lemma save_state_writes (d : Disk) (sm : StateManager) :
  (save_state d sm).2 = true →
  files (save_state d sm).1 !! state_path sm
    = Some (Doc (state_to_json (state sm))).
Proof.
  intros Hok. apply save_state_done in Hok as [_ ->].
  unfold rename_file. cbn. rewrite lookup_insert_eq. cbn.
  by rewrite lookup_insert_eq.
Qed.

(** [save_state] succeeds when no write fails and the primary file, if
    there is one, decodes as text. *)
Lemma save_state_succeeds (d : Disk) (sm : StateManager) :
  unwritable d = ∅ → files d !! state_path sm ≠ Some Undecodable →
  (save_state d sm).2 = true.
Proof.
  intros Hw Hc. unfold save_state, backup_primary, write_text.
  destruct (files d !! state_path sm) as [[| | j] |]; [done | | |];
    repeat (rewrite ?Hw, ?lookup_empty; cbn); done.
Qed.

Lemma load_paths_first (now : Q) (d : Disk) (path : string) (rest : list string)
    (j : json) (s : WatcherState) :
  files d !! path = Some (Doc j) → state_from_json now j = Built s →
  load_paths now d (path :: rest) = LoadedFrom path s.
Proof. intros Hf Hs. cbn. by rewrite Hf, Hs. Qed.

Lemma load_paths_skip (now : Q) (d : Disk) (path : string) (rest : list string) :
  unusable now d path →
  load_paths now d (path :: rest) = load_paths now d rest.
Proof.
  unfold unusable. intros Hu. cbn.
  destruct (files d !! path) as [[| | j] |]; [done | done | | done].
  by rewrite Hu.
Qed.

(** C8. When [save_state] succeeds on a state (whose start-up stamp is
    set, as it is in every state a constructor has built), [load_state] on
    the resulting files installs that very state: all fields equal, the
    entries of the breaker map and the alert-time map and the error window
    of the alerting layer included.  The same holds for a manager created
    afresh on the same path. *)
Theorem save_then_load (now : Q) (d : Disk) (sm : StateManager) :
  ¬ (startup_time (state sm) == 0)%Q →
  (save_state d sm).2 = true →
  load_state now (save_state d sm).1 sm = Returned sm true ∧
  (∀ t0, backup_path sm = state_path sm ++ ".backup" →
     StateManager_init t0 now (save_state d sm).1 (state_path sm)
       = Returned sm true).
Proof.
  intros Hst Hok. pose proof (save_state_writes d sm Hok) as Hfile.
  pose proof (state_from_to_json now (state sm) Hst) as Hjson.
  split.
  - unfold load_state.
    rewrite (load_paths_first _ _ _ _ _ _ Hfile Hjson).
    by rewrite set_state_same.
  - intros t0 Hbackup. unfold StateManager_init, load_state.
    cbn [state_path backup_path].
    rewrite (load_paths_first _ _ _ _ _ _ Hfile Hjson).
    unfold set_state. cbn. destruct sm as [p b s]. cbn in *. by subst b.
Qed.

Lemma save_then_load_witness :
  load_state 200 (save_state empty_disk (manager_with busy_state)).1
             (manager_with busy_state)
  = Returned (manager_with busy_state) true.
Proof.
  apply (save_then_load 200 empty_disk (manager_with busy_state)).
  - intros H. vm_compute in H. discriminate.
  - reflexivity.
Defined.

(** C7. [load_state] reads the primary path and then the backup path and
    installs the state built from the first of them that exists and whose
    content is rebuilt without an exception: the primary when it is usable,
    whatever the backup holds; the backup when the primary is missing or
    corrupt, and then the installed state is exactly the one the backup was
    written from.  When neither is usable it returns [False] without
    raising and leaves the state alone, which for the manager being
    created is the fresh [WatcherState()]. *)
Theorem load_state_fallback (now : Q) (d : Disk) (sm : StateManager) :
  (∀ j s, files d !! state_path sm = Some (Doc j) →
     state_from_json now j = Built s →
     load_state now d sm = Returned (set_state s sm) true) ∧
  (∀ j s, unusable now d (state_path sm) →
     files d !! backup_path sm = Some (Doc j) →
     state_from_json now j = Built s →
     load_state now d sm = Returned (set_state s sm) true) ∧
  (∀ s, unusable now d (state_path sm) →
     files d !! backup_path sm = Some (Doc (state_to_json s)) →
     ¬ (startup_time s == 0)%Q →
     load_state now d sm = Returned (set_state s sm) true) ∧
  (unusable now d (state_path sm) → unusable now d (backup_path sm) →
     load_state now d sm = Returned sm false) ∧
  (∀ t0 path, unusable now d path → unusable now d (path ++ ".backup") →
     StateManager_init t0 now d path
       = Returned {| state_path := path; backup_path := path ++ ".backup";
                     state := WatcherState_default t0 |} false).
Proof.
  assert (Hbackup : ∀ j s, unusable now d (state_path sm) →
            files d !! backup_path sm = Some (Doc j) →
            state_from_json now j = Built s →
            load_state now d sm = Returned (set_state s sm) true).
  { intros j s Hu Hf Hs. unfold load_state.
    rewrite (load_paths_skip _ _ _ _ Hu).
    by rewrite (load_paths_first _ _ _ _ _ _ Hf Hs). }
  assert (Hnone : ∀ m, unusable now d (state_path m) →
            unusable now d (backup_path m) →
            load_state now d m = Returned m false).
  { intros m Hu1 Hu2. unfold load_state.
    by rewrite (load_paths_skip _ _ _ _ Hu1), (load_paths_skip _ _ _ _ Hu2). }
  split; [| split; [exact Hbackup | split; [| split]]].
  - intros j s Hf Hs. unfold load_state.
    by rewrite (load_paths_first _ _ _ _ _ _ Hf Hs).
  - intros s Hu Hf Hst. apply (Hbackup _ _ Hu Hf).
    by apply state_from_to_json.
  - apply Hnone.
  - intros t0 path Hu1 Hu2. unfold StateManager_init. by apply Hnone.
Qed.

Lemma load_state_fallback_witness :
  load_state 200 corrupt_primary_disk (manager_with (WatcherState_default 200))
  = Returned (manager_with busy_state) true.
Proof.
  destruct (load_state_fallback 200 corrupt_primary_disk
              (manager_with (WatcherState_default 200)))
    as (_ & _ & Hbackup & _).
  apply (Hbackup busy_state).
  - vm_compute. exact I.
  - vm_compute. reflexivity.
  - intros H. vm_compute in H. discriminate.
Defined.

End StoreProperties.

(* ===================================================================== *)
(** * Properties of the recovery engine *)
(* ===================================================================== *)

Section HandlerProperties.
Import Models Handler Scenarios Observe.

(** ** The retry policy *)

Lemma elem_of_two (k a b : string) : k ∈ [a; b] ↔ k = a ∨ k = b.
Proof.
  split.
  - intros Hk. apply list_elem_of_In in Hk. destruct Hk as [<- | [<- | []]]; auto.
  - intros [-> | ->]; apply list_elem_of_In; simpl; auto.
Qed.

Lemma get_recovery_action_over_budget (k : string) (ctx : ErrorContext) :
  (max_attempts_of k < attempt_count ctx)%Z →
  _get_recovery_action k ctx =
    if bool_decide (k = "stream_error" ∨ k = "file_not_found")
    then RESTART_COMPONENT else FATAL_EXIT.
Proof.
  intros Hover. unfold _get_recovery_action, max_attempts_of in *.
  destruct (_ <? _)%Z eqn:E; [| lia].
  destruct (decide (k = "stream_error" ∨ k = "file_not_found")) as [Hk | Hk].
  - rewrite (bool_decide_eq_true_2 _ Hk).
    by rewrite bool_decide_eq_true_2 by (by apply elem_of_two).
  - rewrite (bool_decide_eq_false_2 _ Hk).
    rewrite bool_decide_eq_false_2; [done |].
    intros Hin. by apply elem_of_two in Hin.
Qed.

Lemma get_recovery_action_within_budget (k : string) (ctx : ErrorContext) :
  (attempt_count ctx ≤ max_attempts_of k)%Z →
  _get_recovery_action k ctx =
    if bool_decide (k = "stream_error" ∧ attempt_count ctx = 1%Z)
    then RETRY_IMMEDIATE else RETRY_WITH_BACKOFF.
Proof.
  intros Hin. unfold _get_recovery_action, max_attempts_of in *.
  destruct (_ <? _)%Z eqn:E; [lia |].
  destruct (decide (k = "stream_error")) as [-> | Hk].
  - rewrite bool_decide_eq_true_2 by done.
    destruct (attempt_count ctx =? 1)%Z eqn:E1.
    + rewrite bool_decide_eq_true_2; [done | split; [done | lia]].
    + rewrite bool_decide_eq_false_2; [done |].
      intros Hk. destruct Hk as [_ H1]. lia.
  - rewrite (bool_decide_eq_false_2 _ Hk).
    rewrite (bool_decide_eq_false_2 (k = "stream_error" ∧ _)).
    + by repeat case_match.
    + intros Hks. destruct Hks as [Hks _]. done.
Qed.

Lemma get_recovery_action_not_breaker (k : string) (ctx : ErrorContext) :
  _get_recovery_action k ctx ≠ CIRCUIT_BREAKER.
Proof.
  unfold _get_recovery_action. repeat case_match; done.
Qed.

(** The context [handle_error] leaves under the key of the failure. *)
Lemma handle_error_context (t now : Q) (error comp : string) (d : Disk)
    (h : ErrorHandler) :
  let key := context_key comp (classify_error error) in
  ∃ c, error_contexts (handle_error t now error comp d h).2 !! key = Some c
       ∧ attempt_count c = (attempts_so_far h key + 1)%Z
       ∧ last_attempt_time c = t
       ∧ error_message c = error.
Proof.
  cbv zeta. unfold handle_error, attempts_so_far.
  destruct (get_circuit_breaker _ _) as [cb sm1].
  destruct (_should_circuit_break _ _ _ _ _ _) as [[brk d'] sm2]. cbn.
  eexists. rewrite lookup_insert_eq. split; [done |].
  destruct (error_contexts h !! _); done.
Qed.

(** C2. Whatever the message and the component, when [handle_error] does
    not answer CIRCUIT_BREAKER, with [k] the kind of the error and [n] the
    attempt count after the increment: beyond the budget of [k] (its entry
    in [max_retries], 3 without one) the action is RESTART_COMPONENT for
    stream_error and file_not_found and FATAL_EXIT for any other kind;
    within the budget it is RETRY_IMMEDIATE exactly when [k] is
    stream_error and [n] is 1, and RETRY_WITH_BACKOFF otherwise. *)
Theorem handle_error_policy (t now : Q) (error comp : string) (d : Disk)
    (h : ErrorHandler) :
  let k := classify_error error in
  let n := (attempts_so_far h (context_key comp k) + 1)%Z in
  let action := (handle_error t now error comp d h).1.1 in
  action ≠ CIRCUIT_BREAKER →
  ((max_attempts_of k < n)%Z →
     (k = "stream_error" ∨ k = "file_not_found" → action = RESTART_COMPONENT) ∧
     (k ≠ "stream_error" → k ≠ "file_not_found" → action = FATAL_EXIT)) ∧
  ((n ≤ max_attempts_of k)%Z →
     (k = "stream_error" ∧ n = 1%Z → action = RETRY_IMMEDIATE) ∧
     (¬ (k = "stream_error" ∧ n = 1%Z) → action = RETRY_WITH_BACKOFF)).
Proof.
  cbv zeta. unfold handle_error, attempts_so_far.
  destruct (get_circuit_breaker _ _) as [cb sm1].
  destruct (_should_circuit_break _ _ _ _ _ _) as [[brk d'] sm2]. cbn.
  destruct brk; [done |]. intros _.
  set (ctx := set_attempt _ _ _ _).
  assert (Hn : attempt_count ctx =
               (default 0 (attempt_count <$>
                  error_contexts h !! context_key comp (classify_error error)) + 1)%Z).
  { subst ctx. cbn. destruct (error_contexts h !! _); done. }
  rewrite <- Hn. split.
  - intros Hover. rewrite get_recovery_action_over_budget by done.
    split.
    + intros Hk. by rewrite bool_decide_eq_true_2.
    + intros Hs Hf. rewrite bool_decide_eq_false_2; [done |].
      intros Hk. destruct Hk as [Hk | Hk]; done.
  - intros Hin. rewrite get_recovery_action_within_budget by done.
    split.
    + intros Hk. by rewrite bool_decide_eq_true_2.
    + intros Hk. by rewrite bool_decide_eq_false_2.
Qed.

(** The first stream error on a new handler: retried at once. *)
Lemma handle_error_policy_witness :
  (handle_error 1 1 stream_failure "tailer" empty_disk new_handler).1.1
  = RETRY_IMMEDIATE.
Proof.
  destruct (handle_error_policy 1 1 stream_failure "tailer" empty_disk new_handler)
    as [_ Hwithin]; [vm_compute; discriminate |].
  destruct Hwithin as [Hfirst _]; [vm_compute; discriminate |].
  apply Hfirst. split; reflexivity.
Defined.

(** ** The circuit breaker *)

Lemma get_circuit_breaker_known (comp : string) (sm : StateManager)
    (cb : CircuitBreakerState) :
  breakers sm !! comp = Some cb → get_circuit_breaker comp sm = (cb, sm).
Proof. intros H. unfold get_circuit_breaker. by rewrite H. Qed.

Lemma get_circuit_breaker_unknown (comp : string) (sm : StateManager) :
  breakers sm !! comp = None →
  get_circuit_breaker comp sm =
    (CircuitBreakerState_default,
     set_breaker comp CircuitBreakerState_default sm).
Proof. intros H. unfold get_circuit_breaker. by rewrite H. Qed.

Lemma breakers_set_breakers (m : gmap string CircuitBreakerState)
    (sm : StateManager) :
  breakers (set_breakers m sm) = m.
Proof. reflexivity. Qed.

Lemma breakers_set_breaker (comp : string) (cb : CircuitBreakerState)
    (sm : StateManager) :
  breakers (set_breaker comp cb sm) = <[comp := cb]> (breakers sm).
Proof. reflexivity. Qed.

Lemma update_circuit_breaker_manager (comp : string) (cb : CircuitBreakerState)
    (d : Disk) (sm : StateManager) :
  (update_circuit_breaker comp cb d sm).2 = set_breaker comp cb sm.
Proof. reflexivity. Qed.

Lemma Qle_bool_false (x y : Q) : (y < x)%Q → Qle_bool x y = false.
Proof.
  intros Hlt. destruct (Qle_bool x y) eqn:E; [| done].
  apply Qle_bool_iff in E. by apply Qle_not_lt in E.
Qed.

(** Five stream errors open the breaker of the component until 65; at 66
    and again at 67 the probe answers [False], and the breaker it leaves
    is the open one it found. *)
Lemma is_circuit_open_false_twice :
  breaker_of tripped.2 "tailer"
    = Some {| is_open := true; failure_count := 5; last_failure_time := 5;
              last_success_time := 0; next_attempt_time := 5 + 60 |}
  ∧ is_circuit_open 66 "tailer" tripped.2 = (false, tripped.2)
  ∧ is_circuit_open 67 "tailer" (is_circuit_open 66 "tailer" tripped.2).2
    = (false, tripped.2).
Proof. vm_compute. repeat split; reflexivity. Qed.

(** C3 (amended). For a component whose breaker is open, [is_circuit_open]
    returns [True] while the clock is before [next_attempt_time] and
    [False] from then on; it changes nothing, the breaker stays open in the
    store, so every later call at or after the deadline returns [False]
    again until a failure or a success is handled. *)
Theorem is_circuit_open_probe (now : Q) (comp : string) (h : ErrorHandler)
    (cb : CircuitBreakerState) :
  breaker_of h comp = Some cb →
  is_open cb = true →
  (is_circuit_open now comp h).2 = h ∧
  ((now < next_attempt_time cb)%Q → (is_circuit_open now comp h).1 = true) ∧
  ((next_attempt_time cb <= now)%Q → (is_circuit_open now comp h).1 = false) ∧
  (∀ later, (next_attempt_time cb <= later)%Q →
     (is_circuit_open later comp (is_circuit_open now comp h).2).1 = false).
Proof.
  intros Hcb Hopen. unfold breaker_of in Hcb.
  assert (Hcall : ∀ t, is_circuit_open t comp h
                        = (negb (Qle_bool (next_attempt_time cb) t), h)).
  { intros t. unfold is_circuit_open.
    rewrite (get_circuit_breaker_known _ _ _ Hcb), Hopen.
    destruct h as [sm ctxs]. cbn. by destruct (Qle_bool _ _). }
  rewrite !Hcall. cbn. repeat split.
  - intros Hlt. by rewrite Qle_bool_false.
  - intros Hle. apply Qle_bool_iff in Hle. by rewrite Hle.
  - intros later Hle. rewrite Hcall. cbn.
    apply Qle_bool_iff in Hle. by rewrite Hle.
Qed.

Lemma is_circuit_open_probe_witness :
  (is_circuit_open 66 "tailer" tripped.2).2 = tripped.2
  ∧ (is_circuit_open 66 "tailer" tripped.2).1 = false.
Proof.
  destruct (is_circuit_open_probe 66 "tailer" tripped.2
              {| is_open := true; failure_count := 5; last_failure_time := 5;
                 last_success_time := 0; next_attempt_time := 5 + 60 |})
    as (Hsame & _ & Hfalse & _); [vm_compute; reflexivity | reflexivity |].
  split; [exact Hsame |].
  apply Hfalse. vm_compute. discriminate.
Defined.




(** ** record_success *)

Lemma prefix_app (s t : string) : String.prefix s (s ++ t) = true.
Proof.
  induction s as [| a s IH].
  - by destruct t.
  - change (String a s ++ t) with (String a (s ++ t)). simpl.
    destruct (ascii_dec a a); [exact IH | done].
Qed.

(** [record_success] on file: its breaker, half-open with five failures
    counted, keeps [failure_count = 5]; and the context of the component
    file_manager is deleted with those of file. *)
Lemma record_success_keeps_count_and_drops_neighbour :
  (component <$> error_contexts two_components.2 !! "file_manager_stream_error")
    = Some "file_manager"
  ∧ error_contexts (record_success 72 "file" two_components.1 two_components.2).2
      !! "file_manager_stream_error" = None
  ∧ (failure_count <$>
       breaker_of (record_success 72 "file" two_components.1 two_components.2).2
         "file") = Some 5%Z.
Proof. vm_compute. repeat split; reflexivity. Qed.

(** C5 (amended). After [record_success] on a component, its breaker is
    closed; if it was open before the call, [failure_count] is 0 and
    [last_success_time] is the time of the call, and if it was not open it
    is left as it was.  No context of the component remains, every context
    whose key does not start with the name of the component is kept, and
    the next failure of any kind on the component is counted as attempt
    1. *)
Theorem record_success_effect (now : Q) (comp : string) (d : Disk)
    (h : ErrorHandler) :
  let h' := (record_success now comp d h).2 in
  (∃ cb', breaker_of h' comp = Some cb' ∧ is_open cb' = false ∧
     (∀ cb, breaker_of h comp = Some cb → is_open cb = true →
        failure_count cb' = 0%Z ∧ last_success_time cb' = now) ∧
     (∀ cb, breaker_of h comp = Some cb → is_open cb = false → cb' = cb)) ∧
  (∀ kind, error_contexts h' !! context_key comp kind = None) ∧
  (keyed_by_owner (error_contexts h) →
     ∀ key c, error_contexts h' !! key = Some c → component c ≠ comp) ∧
  (∀ key, String.prefix comp key = false →
     error_contexts h' !! key = error_contexts h !! key) ∧
  (∀ t now' error d',
     ∃ c, error_contexts (handle_error t now' error comp d' h').2
            !! context_key comp (classify_error error) = Some c
          ∧ attempt_count c = 1%Z).
Proof.
  cbv zeta.
  assert (Hctx : error_contexts (record_success now comp d h).2
                 = filter (λ kv, String.prefix comp kv.1 = false) (error_contexts h)).
  { unfold record_success. destruct (get_circuit_breaker _ _) as [cb sm1].
    by destruct (is_open cb). }
  assert (Hgone : ∀ kind,
            error_contexts (record_success now comp d h).2
              !! context_key comp kind = None).
  { intros kind. rewrite Hctx. apply map_lookup_filter_None. right.
    intros c _. cbn. unfold context_key. by rewrite prefix_app. }
  split; [| split; [exact Hgone | split; [| split]]].
  - unfold breaker_of, record_success.
    destruct (breakers (state_manager h) !! comp) as [cb |] eqn:Hcb.
    + rewrite (get_circuit_breaker_known _ _ _ Hcb).
      destruct (is_open cb) eqn:Hopen; cbn.
      * eexists. rewrite lookup_insert_eq. split; [done |]. split; [done |].
        split; [by intros ? [= <-] _ | intros ? [= <-]; congruence].
      * exists cb. split; [done |]. split; [done |].
        split; [intros ? [= <-]; congruence | by intros ? [= <-] _].
    + rewrite (get_circuit_breaker_unknown _ _ Hcb). cbn.
      exists CircuitBreakerState_default. rewrite lookup_insert_eq.
      repeat split; intros; done.
  - intros Hkeys key c Hc Hown. rewrite Hctx in Hc.
    apply map_lookup_filter_Some in Hc as [Hc Hpre]. cbn in Hpre.
    rewrite (Hkeys key c Hc), Hown in Hpre. unfold context_key in Hpre.
    by rewrite prefix_app in Hpre.
  - intros key Hpre. rewrite Hctx.
    destruct (error_contexts h !! key) as [c |] eqn:Hc.
    + by apply map_lookup_filter_Some.
    + apply map_lookup_filter_None. by left.
  - intros t now' error d'.
    destruct (handle_error_context t now' error comp d'
                (record_success now comp d h).2) as (c & Hc & Hn & _).
    exists c. split; [exact Hc |]. rewrite Hn.
    unfold attempts_so_far. by rewrite Hgone.
Qed.

(** After a success on file, no stream-error context of file is left. *)
Lemma record_success_effect_witness :
  error_contexts (record_success 72 "file" two_components.1 two_components.2).2
    !! context_key "file" "stream_error" = None.
Proof.
  destruct (record_success_effect 72 "file" two_components.1 two_components.2)
    as (_ & Hgone & _).
  apply Hgone.
Defined.

(** ** get_backoff_delay *)

Lemma pow2_small (e : Z) : (0 ≤ e < 1024)%Z → int_to_float (2 ^ e) = Some (inject_Z (2 ^ e)).
Proof.
  intros He. unfold int_to_float.
  assert (Hpos : (0 < 2 ^ e)%Z) by (apply Z.pow_pos_nonneg; lia).
  assert (Hlt : (2 ^ e < 2 ^ 1024)%Z) by (apply Z.pow_lt_mono_r; lia).
  rewrite Z.abs_eq by lia.
  destruct (Z.ltb_spec (2 ^ e) (2 ^ 1024)); [done | lia].
Qed.

Lemma pow2_large (e : Z) : (1024 ≤ e)%Z → int_to_float (2 ^ e) = None.
Proof.
  intros He. unfold int_to_float.
  assert (Hpos : (0 < 2 ^ e)%Z) by (apply Z.pow_pos_nonneg; lia).
  assert (Hle : (2 ^ 1024 ≤ 2 ^ e)%Z) by (apply Z.pow_le_mono_r; lia).
  rewrite Z.abs_eq by lia.
  destruct (Z.ltb_spec (2 ^ e) (2 ^ 1024)); [lia | done].
Qed.

(** Up to attempt 1024 the delay is [min (base * 2^(attempt-1)) cap]. *)
Lemma get_backoff_delay_in_range (attempt : Z) :
  (1 ≤ attempt ≤ 1024)%Z →
  get_backoff_delay attempt
    = Some (Qmin (base_backoff * inject_Z (2 ^ (attempt - 1))) max_backoff).
Proof.
  intros Ha. unfold get_backoff_delay, pow2.
  destruct (Z.leb_spec 0 (attempt - 1)); [| lia].
  cbn [mbind option_bind]. unfold mul_base. by rewrite pow2_small by lia.
Qed.

(** From attempt 1025 on the product raises [OverflowError]. *)
Lemma get_backoff_delay_overflow (attempt : Z) :
  (1025 ≤ attempt)%Z → get_backoff_delay attempt = None.
Proof.
  intros Ha. unfold get_backoff_delay, pow2.
  destruct (Z.leb_spec 0 (attempt - 1)); [| lia].
  cbn [mbind option_bind]. unfold mul_base. by rewrite pow2_large by lia.
Qed.

(** Where it returns, the delay is at most the cap, it is the base at the
    first attempt, and it does not decrease with the attempt. *)
Lemma get_backoff_delay_bounded (attempt : Z) (delay : Q) :
  (1 ≤ attempt)%Z → get_backoff_delay attempt = Some delay →
  (delay <= max_backoff)%Q.
Proof.
  intros Ha Hd. destruct (Z.le_gt_cases attempt 1024) as [Hs | Hl].
  - rewrite get_backoff_delay_in_range in Hd by lia.
    injection Hd as <-. apply Q.le_min_r.
  - rewrite get_backoff_delay_overflow in Hd by lia. discriminate.
Qed.

Lemma get_backoff_delay_first : get_backoff_delay 1 = Some base_backoff.
Proof. reflexivity. Qed.

Lemma get_backoff_delay_monotone (a b : Z) (da db : Q) :
  (1 ≤ a ≤ b)%Z →
  get_backoff_delay a = Some da → get_backoff_delay b = Some db →
  (da <= db)%Q.
Proof.
  intros Hab Ha Hb. destruct (Z.le_gt_cases b 1024) as [Hs | Hl].
  - rewrite get_backoff_delay_in_range in Ha, Hb by lia.
    injection Ha as <-. injection Hb as <-.
    apply Q.min_le_compat_r. unfold base_backoff. rewrite !Qmult_1_l.
    rewrite <- Zle_Qle. apply Z.pow_le_mono_r; lia.
  - rewrite get_backoff_delay_overflow in Hb by lia. discriminate.
Qed.

(** C9. At attempt 1025 the conversion of [2 ** 1024] to [float] raises
    [OverflowError]: [get_backoff_delay] returns no delay there, while at
    attempt 1024 it still returns the cap. *)
Theorem get_backoff_delay_raises_at_1025 :
  get_backoff_delay 1025 = None ∧ get_backoff_delay 1024 = Some max_backoff.
Proof. split; vm_compute; reflexivity. Qed.

End HandlerProperties.

(* ===================================================================== *)
(** * Properties of the file tailer *)
(* ===================================================================== *)

Section TailerProperties.
Import Models Handler Tailer Scenarios Observe.

(** A FIFO found at the watched path, nothing saved yet: [open] and
    [os.stat] succeed, the size is 0, no inode is on record, and the seek
    to the end of the file raises.  [_ensure_file_open] does not return:
    the exception propagates, and the manager holds no file object. *)
Lemma ensure_file_open_fifo_raises :
  let fm := tailer_with (state_with 0 None ∅) None None 0 in
  path_exists fifo_world = true
  ∧ open_result fifo_world = Some NonSeekable
  ∧ stat_result fifo_world = Some (mkFileStat 9 0)
  ∧ file_inode (manager_state fm) = None
  ∧ _ensure_file_open 200 fifo_world empty_disk fm = (Raise, empty_disk, fm).
Proof. repeat split; reflexivity. Qed.

(** C1 (amended). When no file is open yet and the watched path exists:
    - if [open] returns a seekable stream and [os.stat] succeeds,
      [_ensure_file_open] returns [True] and: if the persisted inode is the
      inode of the file and the persisted position (an unsigned offset) is
      at most the size of the file, the handle is at the persisted position
      and so is [last_position]; in every other case (another inode, no
      persisted inode, a position beyond the size) the handle and
      [last_position] are at the end of the file;
    - if [open] returns a stream that is not seekable, the seek raises
      whatever is saved: the exception propagates, the file object and the
      inode are forgotten, and the disk, the error handler with its state
      manager, and [last_position] are what they were. *)
Theorem ensure_file_open_resume_or_end
    (now : Q) (w : World) (d : Disk) (fm : LogFileManager) (path : string) :
  current_file fm = None →
  current_path fm = Some path →
  path_exists w = true →
  let saved_position := file_position (manager_state fm) in
  let saved_inode := file_inode (manager_state fm) in
  let result := _ensure_file_open now w d fm in
  (∀ (data : string) (st : FileStat),
     open_result w = Some (RegularFile data) →
     stat_result w = Some st →
     (0 ≤ saved_position)%Z →
     let eof := Z.of_nat (String.length data) in
     result.1.1 = Ret true ∧
     (saved_inode = Some (st_ino st) ∧ (saved_position ≤ st_size st)%Z →
        current_file result.2 = Some (mkHandle data saved_position) ∧
        last_position result.2 = saved_position) ∧
     (¬ (saved_inode = Some (st_ino st) ∧ (saved_position ≤ st_size st)%Z) →
        current_file result.2 = Some (mkHandle data eof) ∧
        last_position result.2 = eof)) ∧
  (open_result w = Some NonSeekable →
     result.1.1 = Raise
     ∧ result.1.2 = d
     ∧ current_file result.2 = None
     ∧ current_inode result.2 = None
     ∧ error_handler result.2 = error_handler fm
     ∧ last_position result.2 = last_position fm).
Proof.
  intros Hfile Hpath Hex. cbv zeta. split.
  - intros data st Hopen Hstat Hpos.
    unfold _ensure_file_open. rewrite Hfile, Hpath, Hex, Hopen, Hstat. cbn [negb].
    change (manager_state (set_file _ _ (set_file _ _ fm))) with (manager_state fm).
    change (current_inode (set_file _ (Some (st_ino st)) _)) with (Some (st_ino st)).
    destruct (bool_decide (file_inode (manager_state fm) = Some (st_ino st))) eqn:Hino;
      [destruct (file_position (manager_state fm) <=? st_size st)%Z eqn:Hle |];
      cbn [andb].
    + assert (Hnn : (file_position (manager_state fm) <? 0)%Z = false) by lia.
      rewrite Hnn.
      destruct (record_success _ _ _ _) as [d' h'] eqn:Hrs. cbn.
      split; [done |]. split; [done |].
      intros Hnot. exfalso. apply Hnot. split.
      * by apply bool_decide_eq_true in Hino.
      * lia.
    + destruct (record_success _ _ _ _) as [d' h'] eqn:Hrs. cbn.
      split; [done |]. split; [| done].
      intros [_ Hle']. lia.
    + destruct (record_success _ _ _ _) as [d' h'] eqn:Hrs. cbn.
      split; [done |]. split; [| done].
      intros [Heq _]. apply bool_decide_eq_false in Hino. done.
  - intros Hopen. unfold _ensure_file_open.
    rewrite Hfile, Hpath, Hex, Hopen. cbn. done.
Qed.

(** A restart on the same file (inode 7, nine bytes) with offset 6 saved:
    the handle resumes at 6. *)
Lemma ensure_file_open_resume_or_end_witness :
  current_file
    (_ensure_file_open 200 short_log_world empty_disk
       (tailer_with (state_with 6 (Some 7%Z) ∅) None None 0)).2
  = Some (mkHandle short_log 6).
Proof.
  destruct (ensure_file_open_resume_or_end 200 short_log_world empty_disk
              (tailer_with (state_with 6 (Some 7%Z) ∅) None None 0)
              log_file)
    as (Hregular & _); [reflexivity | reflexivity | reflexivity |].
  destruct (Hregular short_log (mkFileStat 7 9))
    as (_ & Hresume & _); [reflexivity | reflexivity | simpl; lia |].
  apply Hresume. split; [reflexivity | simpl; lia].
Defined.

(** A file opened with inode 0 on record; a fresh stat of the path reports
    inode 5 and the size 9 the handle has read up to: no rotation is
    reported, the inode test being skipped for a recorded inode of [None]
    or 0. *)
Lemma detect_rotation_inode_zero :
  let w := {| path_exists := true; open_result := Some short_log;
              stat_result := Some (mkFileStat 5 9) |} in
  let fm := tailer_with (state_with 0 None ∅) (Some (mkHandle short_log 9))
                        (Some 0%Z) 9 in
  current_inode fm = Some 0%Z
  ∧ (st_ino <$> stat_result w) = Some 5%Z
  ∧ detect_rotation w fm = false.
Proof. repeat split; reflexivity. Qed.

(** C6 (amended). [detect_rotation] returns [True] when the path does not
    exist, when [os.stat] fails, when the inode recorded at open time is
    neither [None] nor 0 and differs from the inode of a fresh stat, and
    when a file is open and the size is below the read offset minus 1000;
    it returns [False] when the path exists, the stat succeeds with the
    recorded inode and the size is at least the read offset. *)
Theorem detect_rotation_cases (w : World) (fm : LogFileManager) :
  (path_exists w = false → detect_rotation w fm = true) ∧
  (stat_result w = None → detect_rotation w fm = true) ∧
  (∀ st i, stat_result w = Some st → current_inode fm = Some i →
     i ≠ 0%Z → st_ino st ≠ i → detect_rotation w fm = true) ∧
  (∀ st h, stat_result w = Some st → current_file fm = Some h →
     (st_size st < h_pos h - 1000)%Z → detect_rotation w fm = true) ∧
  (∀ st p, current_path fm = Some p → p ≠ "" → path_exists w = true →
     stat_result w = Some st → current_inode fm = Some (st_ino st) →
     (∀ h, current_file fm = Some h → (h_pos h ≤ st_size st)%Z) →
     detect_rotation w fm = false).
Proof.
  unfold detect_rotation, path_missing. repeat split.
  - intros ->. destruct (current_path fm); [| done].
    by rewrite orb_true_r.
  - intros ->. by case_match.
  - intros st i -> -> Hi Hne. case_match; [done |].
    cbn [truthy]. rewrite bool_decide_eq_false_2 by congruence.
    destruct (i =? 0)%Z eqn:E; [lia | done].
  - intros st h -> -> Hlt. repeat case_match; try done. lia.
  - intros st p -> Hp -> -> -> Hpos.
    rewrite bool_decide_eq_false_2 by done. cbn [orb negb].
    rewrite bool_decide_eq_true_2 by done. rewrite andb_false_r.
    destruct (current_file fm) as [h |]; [| done].
    specialize (Hpos h eq_refl). lia.
Qed.

Lemma detect_rotation_cases_witness :
  detect_rotation
    {| path_exists := true; open_result := Some short_log;
       stat_result := Some (mkFileStat 8 9) |}
    (tailer_with (state_with 9 (Some 7%Z) ∅) (Some (mkHandle short_log 9))
                 (Some 7%Z) 9) = true
  ∧ detect_rotation short_log_world
      (tailer_with (state_with 9 (Some 7%Z) ∅) (Some (mkHandle short_log 9))
                   (Some 7%Z) 9) = false.
Proof.
  split.
  - destruct (detect_rotation_cases
                {| path_exists := true; open_result := Some short_log;
                   stat_result := Some (mkFileStat 8 9) |}
                (tailer_with (state_with 9 (Some 7%Z) ∅)
                   (Some (mkHandle short_log 9)) (Some 7%Z) 9))
      as (_ & _ & Hino & _).
    apply (Hino (mkFileStat 8 9) 7%Z); [reflexivity | reflexivity | lia | simpl; lia].
  - destruct (detect_rotation_cases short_log_world
                (tailer_with (state_with 9 (Some 7%Z) ∅)
                   (Some (mkHandle short_log 9)) (Some 7%Z) 9))
      as (_ & _ & _ & _ & Hsame).
    apply (Hsame (mkFileStat 7 9) log_file);
      [reflexivity | discriminate | reflexivity | reflexivity | reflexivity |].
    intros h [= <-]. simpl. lia.
Defined.

(** ** Checkpoints of [_read_lines] *)

(** One line read: the state manager receives the new offset when that
    offset is a multiple of 50 and keeps the offset it had otherwise. *)
Lemma read_step_checkpoint (line : string) (fm : LogFileManager) (h : Handle) :
  current_file fm = Some h →
  let offset := (h_pos h + Z.of_nat (String.length line))%Z in
  last_position (read_step line fm) = offset ∧
  file_position (manager_state (read_step line fm))
    = if (offset mod 50 =? 0)%Z then offset
      else file_position (manager_state fm).
Proof.
  intros Hh. cbv zeta. unfold read_step. rewrite Hh. cbn.
  by destruct (_ =? 0)%Z.
Qed.

(** The logs of the examples are ASCII texts without carriage return. *)
Lemma scenario_logs_plain :
  plain_text short_log = true
  ∧ plain_text fifty_byte_lines = true
  ∧ plain_text odd_offset_lines = true.
Proof. repeat split; reflexivity. Qed.

(** C10. Reading three lines of 50 bytes from offset 0 hands the offset to
    the state manager at each of the three lines (50, 100, 150); reading
    121 lines that all end at odd offsets never does, the stored offset is
    still 0 at the last line: what decides is the value of the offset
    modulo 50, not the count of lines read. *)
Theorem read_lines_checkpoint_by_offset :
  stored_offsets (_read_lines fifty_byte_tailer) = [50; 100; 150]%Z
  ∧ length (_read_lines odd_offset_tailer) = 121%nat
  ∧ stored_offsets (_read_lines odd_offset_tailer) = repeat 0%Z 121.
Proof. vm_compute. repeat split; reflexivity. Qed.

End TailerProperties.

(* ===================================================================== *)
(** * Further properties of the state store *)
(* ===================================================================== *)

Section StoreOperations.
Import Models Scenarios Observe.

(** ** The three paths of a manager are distinct *)

Lemma string_length_app (s t : string) :
  String.length (s ++ t) = (String.length s + String.length t)%nat.
Proof.
  induction s as [| a s IH]; [done |].
  change (S (String.length (s ++ t)) = S (String.length s + String.length t)).
  by rewrite IH.
Qed.

Lemma string_app_neq_self (s t : string) : t ≠ "" → s ++ t ≠ s.
Proof.
  intros Ht Heq. apply (f_equal String.length) in Heq.
  rewrite string_length_app in Heq. destruct t; [done |]. cbn in Heq. lia.
Qed.

Lemma string_app_inj (s t u : string) : s ++ t = s ++ u → t = u.
Proof.
  induction s as [| a s IH]; [done |].
  change (String a (s ++ t) = String a (s ++ u) → t = u).
  intros Heq. injection Heq as Heq. by apply IH.
Qed.

Lemma paths_distinct (sm : StateManager) :
  backup_path sm = state_path sm ++ ".backup" →
  backup_path sm ≠ state_path sm
  ∧ temp_path sm ≠ state_path sm
  ∧ temp_path sm ≠ backup_path sm.
Proof.
  intros ->. unfold temp_path. repeat split.
  - by apply string_app_neq_self.
  - by apply string_app_neq_self.
  - intros Heq. by apply string_app_inj in Heq.
Qed.

(** ** save_state *)

Lemma save_state_files (d : Disk) (sm : StateManager) (c : file_content) :
  backup_path sm = state_path sm ++ ".backup" →
  files d !! state_path sm = Some c →
  (save_state d sm).2 = true →
  let d' := (save_state d sm).1 in
  files d' !! backup_path sm = Some c
  ∧ files d' !! state_path sm = Some (Doc (state_to_json (state sm)))
  ∧ files d' !! temp_path sm = None
  ∧ (∀ p, p ≠ state_path sm → p ≠ backup_path sm → p ≠ temp_path sm →
       files d' !! p = files d !! p).
Proof.
  intros Hbk Hc Hok.
  destruct (paths_distinct sm Hbk) as (Hbs & Hts & Htb).
  apply save_state_done in Hok as [Hb ->].
  apply backup_primary_done in Hb. rewrite Hc in Hb. rewrite Hb. cbv zeta.
  unfold rename_file. cbn. rewrite lookup_insert_eq. cbn.
  repeat split.
  - rewrite lookup_insert_ne by done. rewrite lookup_delete_ne by done.
    rewrite lookup_insert_ne by done. by rewrite lookup_insert_eq.
  - by rewrite lookup_insert_eq.
  - rewrite lookup_insert_ne by done. by rewrite lookup_delete_eq.
  - intros p Hp1 Hp2 Hp3.
    rewrite lookup_insert_ne by done. rewrite lookup_delete_ne by done.
    rewrite lookup_insert_ne by done. by rewrite lookup_insert_ne.
Qed.

(** A failed [save_state] has not reached the rename: the primary file is
    untouched, and so is every file other than the backup and the
    temporary file. *)
Lemma save_state_failed_frame (d : Disk) (sm : StateManager) (p : string) :
  (save_state d sm).2 = false →
  p ≠ backup_path sm → p ≠ temp_path sm →
  files (save_state d sm).1 !! p = files d !! p.
Proof.
  intros Hfail Hpb Hpt. revert Hfail. unfold save_state.
  destruct (backup_primary_frame d sm) as [_ Hb].
  destruct (backup_primary d sm) as [d1 [|]]; cbn [fst snd] in *;
    [| intros _; by apply Hb].
  destruct (write_text_frame (temp_path sm) (Doc (state_to_json (state sm))) d1)
    as [_ Hw].
  destruct (write_text _ _ d1) as [d2 [|]]; cbn [fst snd] in *;
    [| intros _; rewrite Hw by done; by apply Hb].
  destruct (unwritable d2 !! state_path sm) as [[| |] |]; cbn [fst snd];
    try done.
  intros _. rewrite Hw by done. by apply Hb.
Qed.

(** X1. A successful [save_state] over an existing primary file leaves the
    previous content of the primary in the backup, the dumped state in the
    primary, no temporary file, and every other file as it was. *)
Theorem save_state_keeps_previous (d : Disk) (sm : StateManager)
    (c : file_content) :
  backup_path sm = state_path sm ++ ".backup" →
  files d !! state_path sm = Some c →
  (save_state d sm).2 = true →
  let d' := (save_state d sm).1 in
  files d' !! backup_path sm = Some c
  ∧ files d' !! state_path sm = Some (Doc (state_to_json (state sm)))
  ∧ files d' !! temp_path sm = None
  ∧ (∀ p, p ≠ state_path sm → p ≠ backup_path sm → p ≠ temp_path sm →
       files d' !! p = files d !! p).
Proof. apply save_state_files. Qed.

(** Saving over the corrupt primary of [corrupt_primary_disk]: the backup
    now holds the corrupt text. *)
Lemma save_state_keeps_previous_witness :
  files (save_state corrupt_primary_disk (manager_with busy_state)).1
    !! backup_path (manager_with busy_state) = Some Garbage.
Proof.
  destruct (save_state_keeps_previous corrupt_primary_disk
              (manager_with busy_state) Garbage) as (Hb & _);
    [reflexivity | vm_compute; reflexivity | reflexivity |].
  exact Hb.
Defined.

(** X2. When [save_state] returns [False], whatever made it fail (a
    primary that does not decode, a backup or a temporary file that cannot
    be opened or written in full, a rename that raises), the primary file
    is what it was, and so is every file other than the backup and the
    temporary file: a failed save never replaces the state on disk. *)
Theorem save_state_failure_keeps_primary (d : Disk) (sm : StateManager) :
  backup_path sm = state_path sm ++ ".backup" →
  (save_state d sm).2 = false →
  files (save_state d sm).1 !! state_path sm = files d !! state_path sm
  ∧ (∀ p, p ≠ backup_path sm → p ≠ temp_path sm →
       files (save_state d sm).1 !! p = files d !! p).
Proof.
  intros Hbk Hfail. destruct (paths_distinct sm Hbk) as (Hbs & Hts & Htb).
  split.
  - apply save_state_failed_frame; [done | | ]; by apply not_eq_sym.
  - intros p Hpb Hpt. by apply save_state_failed_frame.
Qed.

(** A save whose rename fails, over the corrupt primary of
    [corrupt_primary_disk]: the primary still holds the corrupt text. *)
Lemma save_state_failure_keeps_primary_witness :
  files (save_state {| files := files corrupt_primary_disk;
                       unwritable := {[ state_file := RenameFails ]} |}
                    (manager_with busy_state)).1 !! state_file
  = Some Garbage.
Proof.
  destruct (save_state_failure_keeps_primary
              {| files := files corrupt_primary_disk;
                 unwritable := {[ state_file := RenameFails ]} |}
              (manager_with busy_state)) as [Hp _];
    [reflexivity | vm_compute; reflexivity |].
  etrans; [exact Hp |]. vm_compute. reflexivity.
Defined.

(** X3. Two successful saves in a row, of a state and then of any later
    state; if the primary file is afterwards corrupted or removed,
    [load_state] installs the state of the first save, which the second
    save moved to the backup. *)
Theorem backup_holds_previous_save (now : Q) (d : Disk) (sm : StateManager)
    (later : WatcherState) :
  backup_path sm = state_path sm ++ ".backup" →
  ¬ (startup_time (state sm) == 0)%Q →
  (save_state d sm).2 = true →
  (save_state (save_state d sm).1 (set_state later sm)).2 = true →
  let d2 := (save_state (save_state d sm).1 (set_state later sm)).1 in
  load_state now (write_file (state_path sm) Garbage d2) (set_state later sm)
    = Returned sm true
  ∧ load_state now
      {| files := delete (state_path sm) (files d2); unwritable := unwritable d2 |}
      (set_state later sm)
    = Returned sm true.
Proof.
  intros Hbk Hst Hok1 Hok2. cbv zeta.
  destruct (paths_distinct sm Hbk) as (Hbs & Hts & Htb).
  pose proof (save_state_writes d sm Hok1) as Hfirst.
  destruct (save_state_files (save_state d sm).1 (set_state later sm)
              (Doc (state_to_json (state sm)))) as (Hb & _);
    [done | done | done |].
  cbn [backup_path state_path set_state] in Hb.
  assert (Hload : ∀ d3, unusable now d3 (state_path sm) →
            files d3 !! backup_path sm = Some (Doc (state_to_json (state sm))) →
            load_state now d3 (set_state later sm) = Returned sm true).
  { intros d3 Hu Hf. unfold load_state. cbn [state_path backup_path set_state].
    rewrite (load_paths_skip _ _ _ _ Hu).
    rewrite (load_paths_first _ _ _ _ _ _ Hf (state_from_to_json now _ Hst)).
    by destruct sm. }
  split; apply Hload.
  - unfold unusable, write_file. cbn. by rewrite lookup_insert_eq.
  - unfold write_file. cbn. by rewrite lookup_insert_ne.
  - unfold unusable. cbn. by rewrite lookup_delete_eq.
  - cbn. by rewrite lookup_delete_ne.
Qed.

Lemma backup_holds_previous_save_witness :
  load_state 200
    (write_file state_file Garbage
       (save_state (save_state empty_disk (manager_with busy_state)).1
                   (manager_with (state_with 0 None ∅))).1)
    (manager_with (state_with 0 None ∅))
  = Returned (manager_with busy_state) true.
Proof.
  destruct (backup_holds_previous_save 200 empty_disk (manager_with busy_state)
              (state_with 0 None ∅)) as [Hg _];
    [reflexivity | intros H; vm_compute in H; discriminate
    | reflexivity | reflexivity |].
  exact Hg.
Defined.

(** X4. What makes a state file unusable: JSON that is not an object, an
    object with a key that is not a field of [WatcherState], and a breaker
    entry with a key that is not a field of [CircuitBreakerState].  In each
    case building the state raises, whatever else the file holds. *)
Theorem state_from_json_rejects (now : Q) :
  (∀ j, (∀ data, j ≠ JObj data) → state_from_json now j = Raises)
  ∧ (∀ data k v, data !! k = Some v → k ∉ state_fields →
       state_from_json now (JObj data) = Raises)
  ∧ (∀ data cbs name entry k v,
       data !! "circuit_breaker_states" = Some (JObj cbs) →
       cbs !! name = Some (JObj entry) →
       entry !! k = Some v → k ∉ cb_fields →
       state_from_json now (JObj data) = Raises).
Proof.
  repeat split.
  - intros j Hj. destruct j; try done. by destruct (Hj m).
  - intros data k v Hk Hnot. unfold state_from_json.
    destruct (cb_states_from_json _); [| done |];
      rewrite bool_decide_eq_false_2; try done;
      intros Hsub; apply Hnot, Hsub, elem_of_dom; by eexists.
  - intros data cbs name entry k v Hd Hc He Hnot. unfold state_from_json.
    rewrite Hd. unfold cb_states_from_json.
    assert (Hex : existsb (λ kv : string * json, is_raises (cb_from_json kv.2))
                    (map_to_list cbs) = true).
    { apply existsb_exists. exists (name, JObj entry). split.
      - apply list_elem_of_In. by apply elem_of_map_to_list.
      - cbn. rewrite bool_decide_eq_false_2; [done |].
        intros Hsub. apply Hnot, Hsub, elem_of_dom. by eexists. }
    by rewrite Hex.
Qed.

Lemma state_from_json_rejects_witness :
  state_from_json 200 (JObj {[ "file_offset" := JInt 10 ]}) = Raises.
Proof.
  destruct (state_from_json_rejects 200) as (_ & Hkey & _).
  apply (Hkey _ "file_offset" (JInt 10)); [reflexivity |].
  vm_compute. intros H. discriminate H.
Defined.

(** ** Breakers in the store *)

(** X5. A breaker stored with [update_circuit_breaker] is what
    [get_circuit_breaker] returns afterwards, without any further change;
    the breakers of the other components are untouched; and when the save
    that [update_circuit_breaker] performs returns [True], a manager
    created afresh on the same path (a restart) holds the same state, the
    new breaker included. *)
Theorem stored_breaker_survives_restart (t0 now : Q) (comp : string)
    (cb : CircuitBreakerState) (d : Disk) (sm : StateManager) :
  backup_path sm = state_path sm ++ ".backup" →
  ¬ (startup_time (state sm) == 0)%Q →
  let d' := (update_circuit_breaker comp cb d sm).1 in
  let sm' := (update_circuit_breaker comp cb d sm).2 in
  get_circuit_breaker comp sm' = (cb, sm')
  ∧ (∀ other, other ≠ comp → breakers sm' !! other = breakers sm !! other)
  ∧ ((save_state d sm').2 = true →
     StateManager_init t0 now d' (state_path sm) = Returned sm' true).
Proof.
  intros Hbk Hst. cbv zeta. unfold update_circuit_breaker. cbn [fst snd].
  set (sm' := set_breakers _ sm). repeat split.
  - unfold get_circuit_breaker. subst sm'.
    change (breakers (set_breakers ?m sm)) with m.
    by rewrite lookup_insert_eq.
  - intros other Hne. subst sm'.
    change (breakers (set_breakers ?m sm)) with m.
    by rewrite lookup_insert_ne.
  - intros Hok.
    pose proof (save_state_writes d sm' Hok) as Hfile.
    assert (Hst' : ¬ (startup_time (state sm') == 0)%Q) by done.
    pose proof (state_from_to_json now (state sm') Hst') as Hjson.
    unfold StateManager_init, load_state. cbn [state_path backup_path].
    change (state_path sm) with (state_path sm').
    rewrite (load_paths_first _ _ _ _ _ _ Hfile Hjson).
    unfold set_state. cbn. f_equal. subst sm'.
    destruct sm as [p b s]. cbn in *. by subst b.
Qed.

Lemma stored_breaker_survives_restart_witness :
  StateManager_init 300 300
    (update_circuit_breaker "tailer" CircuitBreakerState_default empty_disk
       (manager_with busy_state)).1 state_file
  = Returned
      (update_circuit_breaker "tailer" CircuitBreakerState_default empty_disk
         (manager_with busy_state)).2 true.
Proof.
  destruct (stored_breaker_survives_restart 300 300 "tailer"
              CircuitBreakerState_default empty_disk (manager_with busy_state))
    as (_ & _ & Hrestart);
    [reflexivity | intros H; vm_compute in H; discriminate |].
  apply Hrestart. vm_compute. reflexivity.
Defined.

(** X6. [get_circuit_breaker] on a component without a breaker stores and
    returns a closed default one; asked again it returns the same breaker
    and changes nothing; it never changes the breaker of another
    component nor the saved offset. *)
Theorem get_circuit_breaker_stable (comp : string) (sm : StateManager) :
  let cb := (get_circuit_breaker comp sm).1 in
  let sm' := (get_circuit_breaker comp sm).2 in
  breakers sm' !! comp = Some cb
  ∧ get_circuit_breaker comp sm' = (cb, sm')
  ∧ (breakers sm !! comp = None → cb = CircuitBreakerState_default)
  ∧ (∀ other, other ≠ comp → breakers sm' !! other = breakers sm !! other)
  ∧ file_position (state sm') = file_position (state sm)
  ∧ file_inode (state sm') = file_inode (state sm).
Proof.
  cbv zeta. unfold get_circuit_breaker.
  destruct (breakers sm !! comp) as [cb |] eqn:Hcb; cbn [fst snd].
  - rewrite Hcb. repeat split; done.
  - change (breakers (set_breakers ?m sm)) with m.
    rewrite lookup_insert_eq. repeat split; try done.
    intros other Hne. by rewrite lookup_insert_ne.
Qed.

Lemma get_circuit_breaker_stable_witness :
  (get_circuit_breaker "tailer" (manager_with (state_with 0 None ∅))).1
  = CircuitBreakerState_default.
Proof.
  destruct (get_circuit_breaker_stable "tailer" (manager_with (state_with 0 None ∅)))
    as (_ & _ & Hdefault & _).
  apply Hdefault. reflexivity.
Defined.

(** ** The accessors of the alerting layer *)

(** X7. After [update_pool_state] the current pool is the given one, the
    offset, inode and breakers are what they were, and a second call with
    the same pool changes neither the manager nor the disk; a call with
    the pool already current does nothing at all. *)
Theorem update_pool_state_effect (pool : string) (d : Disk) (sm : StateManager) :
  let d' := (update_pool_state pool d sm).1 in
  let sm' := (update_pool_state pool d sm).2 in
  current_pool (state sm') = Some pool
  ∧ file_position (state sm') = file_position (state sm)
  ∧ file_inode (state sm') = file_inode (state sm)
  ∧ breakers sm' = breakers sm
  ∧ update_pool_state pool d' sm' = (d', sm')
  ∧ (current_pool (state sm) = Some pool →
       update_pool_state pool d sm = (d, sm)).
Proof.
  cbv zeta. unfold update_pool_state.
  destruct (decide (current_pool (state sm) = Some pool)) as [Hp | Hp].
  - rewrite (bool_decide_eq_true_2 _ Hp). cbn [fst snd].
    rewrite (bool_decide_eq_true_2 _ Hp). done.
  - rewrite (bool_decide_eq_false_2 _ Hp). cbn [fst snd].
    repeat split; try done.
    by rewrite bool_decide_eq_true_2.
Qed.

Lemma update_pool_state_effect_witness :
  update_pool_state "blue" empty_disk (manager_with busy_state)
  = (empty_disk, manager_with busy_state).
Proof.
  destruct (update_pool_state_effect "blue" empty_disk (manager_with busy_state))
    as (_ & _ & _ & _ & _ & Hsame).
  apply Hsame. reflexivity.
Defined.

Lemma Qmax_zero_nonpos (x : Q) : (x <= 0)%Q → Qmax 0 x = 0%Q.
Proof.
  intros Hx. unfold Qmax, GenericMinMax.gmax.
  destruct (Qcompare_spec 0 x) as [_ | Hlt | _]; try done.
  by apply Qlt_not_le in Hlt.
Qed.

Lemma Qmax_zero_pos (x : Q) : (0 < x)%Q → Qmax 0 x = x.
Proof.
  intros Hx. unfold Qmax, GenericMinMax.gmax.
  destruct (Qcompare_spec 0 x) as [Heq | _ | Hgt]; try done.
  - rewrite <- Heq in Hx. by apply Qlt_irrefl in Hx.
  - exfalso. apply (Qlt_irrefl 0). by apply (Qlt_trans _ x).
Qed.

(** X8. [get_alert_cooldown] is 0 for an alert type never recorded (the
    clock not being negative) and for one recorded at or before the clock
    reading: in particular, after [set_alert_time] with the current time,
    it is 0 at every later reading.  Only an alert time set in the future
    gives a positive value, the time left until it. *)
Theorem alert_cooldown_values (now later : Q) (alert_type : string)
    (d : Disk) (sm : StateManager) :
  (last_alert_times (state sm) !! alert_type = None → (0 <= now)%Q →
     get_alert_cooldown now alert_type sm = 0%Q)
  ∧ ((now <= later)%Q →
       get_alert_cooldown later alert_type
         (set_alert_time now alert_type None d sm).2 = 0%Q)
  ∧ (∀ t, (t <= later)%Q →
       get_alert_cooldown later alert_type
         (set_alert_time now alert_type (Some t) d sm).2 = 0%Q)
  ∧ (∀ t, (later < t)%Q →
       get_alert_cooldown later alert_type
         (set_alert_time now alert_type (Some t) d sm).2 = (t - later)%Q).
Proof.
  assert (Hset : ∀ o,
    get_alert_cooldown later alert_type (set_alert_time now alert_type o d sm).2
    = Qmax 0 (default now o - later)).
  { intros o. unfold get_alert_cooldown, set_alert_time. cbn [snd].
    change (last_alert_times (state (set_alert_times ?m sm))) with m.
    by rewrite lookup_insert_eq. }
  repeat split.
  - intros Hnone Hnow. unfold get_alert_cooldown. rewrite Hnone.
    cbn [from_option id]. apply Qmax_zero_nonpos. lra.
  - intros Hle. rewrite Hset. cbn [from_option id]. apply Qmax_zero_nonpos. lra.
  - intros t Hle. rewrite Hset. cbn [from_option id]. apply Qmax_zero_nonpos. lra.
  - intros t Hlt. rewrite Hset. cbn [from_option id]. apply Qmax_zero_pos. lra.
Qed.

Lemma alert_cooldown_values_witness :
  get_alert_cooldown 500 "failover"
    (set_alert_time 400 "failover" None empty_disk (manager_with busy_state)).2
  = 0%Q.
Proof.
  destruct (alert_cooldown_values 400 500 "failover" empty_disk
              (manager_with busy_state)) as (_ & Hlater & _).
  apply Hlater. vm_compute. discriminate.
Defined.

Lemma window_of_set_window (l : list json) (sm : StateManager) :
  error_rate_window (state (set_window l sm)) = l.
Proof. reflexivity. Qed.

(** X9. With a window size of at least 1 and a window not longer than it,
    [add_request_to_window] returns normally, the window is still not
    longer than the size, the new request is its last element, and what
    it holds is the end of the old window followed by the request. *)
Theorem add_request_keeps_bound (window_size : Z) (request : json)
    (d : Disk) (sm : StateManager) :
  (1 ≤ window_size)%Z →
  (Z.of_nat (length (error_rate_window (state sm))) ≤ window_size)%Z →
  ∃ d' sm',
    add_request_to_window (Some window_size) request d sm = inl (d', sm')
    ∧ (Z.of_nat (length (error_rate_window (state sm'))) ≤ window_size)%Z
    ∧ last (error_rate_window (state sm')) = Some request
    ∧ error_rate_window (state sm')
        `suffix_of` (error_rate_window (state sm) ++ [request])%list.
Proof.
  intros Hw Hlen. unfold add_request_to_window.
  rewrite window_of_set_window.
  set (l := error_rate_window (state sm)) in *.
  assert (Hfinal : ∀ sm2 : StateManager,
            ∃ d' sm',
              (if (Z.of_nat (length (error_rate_window (state sm2))) mod 10 =? 0)%Z
               then inl ((save_state d sm2).1, sm2)
               else inl (d, sm2))
              = (inl (d', sm') : Disk * StateManager + StateManager)
              ∧ sm' = sm2).
  { intros sm2. destruct (_ =? 0)%Z; by eexists _, _. }
  destruct (Z.ltb_spec window_size (Z.of_nat (length (l ++ [request])%list)))
    as [Hlong | Hshort].
  - destruct (Hfinal (set_window (slice_last window_size (l ++ [request])%list)
                        (set_window (l ++ [request])%list sm)))
      as (d' & sm' & -> & ->).
    exists d', (set_window (slice_last window_size (l ++ [request])%list)
                  (set_window (l ++ [request])%list sm)).
    split; [done |]. rewrite window_of_set_window.
    unfold slice_last. destruct (Z.ltb_spec 0 window_size); [| lia].
    rewrite length_app in *. cbn [length] in *.
    assert (Hn : (length l + 1 - Z.to_nat window_size ≤ length l)%nat) by lia.
    split; [| split].
    + rewrite length_drop, length_app. cbn [length]. lia.
    + rewrite drop_app_le by exact Hn. apply last_snoc.
    + apply suffix_drop.
  - destruct (Hfinal (set_window (l ++ [request])%list sm)) as (d' & sm' & -> & ->).
    exists d', (set_window (l ++ [request])%list sm).
    split; [done |]. rewrite window_of_set_window.
    split; [lia | split; [apply last_snoc | done]].
Qed.

Lemma add_request_keeps_bound_witness :
  ∃ d' sm',
    add_request_to_window (Some 2%Z) JNull empty_disk (manager_with busy_state)
      = inl (d', sm')
    ∧ (Z.of_nat (length (error_rate_window (state sm'))) ≤ 2)%Z
    ∧ last (error_rate_window (state sm')) = Some JNull
    ∧ error_rate_window (state sm')
        `suffix_of` (error_rate_window (state (manager_with busy_state)) ++ [JNull])%list.
Proof.
  apply (add_request_keeps_bound 2 JNull empty_disk (manager_with busy_state));
    [lia | simpl; lia].
Defined.

(** X10. With a window size of 0 the slice [l[-0:]] is the whole list:
    the window is never trimmed and grows by the request.  With a setting
    that does not read as an integer the call raises after the request has
    been appended, and nothing is saved. *)
Theorem add_request_untrimmed (request : json) (d : Disk) (sm : StateManager) :
  (∃ d' sm',
     add_request_to_window (Some 0%Z) request d sm = inl (d', sm')
     ∧ error_rate_window (state sm')
       = (error_rate_window (state sm) ++ [request])%list)
  ∧ (∃ sm',
       add_request_to_window None request d sm = inr sm'
       ∧ error_rate_window (state sm')
         = (error_rate_window (state sm) ++ [request])%list).
Proof.
  split.
  - unfold add_request_to_window. rewrite window_of_set_window.
    set (l := error_rate_window (state sm)).
    assert (Hslice : slice_last 0 (l ++ [request])%list = (l ++ [request])%list)
      by done.
    destruct (0 <? Z.of_nat (length (l ++ [request])%list))%Z;
      rewrite ?window_of_set_window, ?Hslice;
      destruct (_ =? 0)%Z; eexists _, _; (split; [reflexivity |]);
      by rewrite window_of_set_window.
  - eexists. split; [reflexivity |]. apply window_of_set_window.
Qed.

End StoreOperations.

(* ===================================================================== *)
(** * Further properties of the recovery engine *)
(* ===================================================================== *)

Section HandlerOperations.
Import Models Handler Scenarios Observe.

(** ** should_retry and classify_error *)

(** X11. [should_retry] says "retry" exactly when [_get_recovery_action]
    answers one of the two retry actions for the same kind and count. *)
Theorem should_retry_matches_action (k : string) (ctx : ErrorContext) :
  should_retry k (attempt_count ctx) = true ↔
    (_get_recovery_action k ctx = RETRY_IMMEDIATE
     ∨ _get_recovery_action k ctx = RETRY_WITH_BACKOFF).
Proof.
  unfold should_retry. fold (max_attempts_of k).
  destruct (Z.leb_spec (attempt_count ctx) (max_attempts_of k)) as [Hin | Hover].
  - split; [intros _ | done].
    rewrite get_recovery_action_within_budget by done.
    destruct (bool_decide _); auto.
  - split; [done |].
    rewrite get_recovery_action_over_budget by done.
    destruct (bool_decide _); intros [? | ?]; discriminate.
Qed.

(** ** The table of error contexts *)

Lemma handle_error_contexts (t now : Q) (error comp : string) (d : Disk)
    (h : ErrorHandler) :
  let key := context_key comp (classify_error error) in
  let context0 :=
    default {| error_type := classify_error error; component := comp;
               attempt_count := 0%Z; last_attempt_time := 0%Q;
               error_message := error |}
            (error_contexts h !! key) in
  error_contexts (handle_error t now error comp d h).2
  = <[key := set_attempt (attempt_count context0 + 1)%Z t error context0]>
      (error_contexts h).
Proof.
  cbv zeta. unfold handle_error.
  destruct (get_circuit_breaker _ _) as [cb sm1].
  by destruct (_should_circuit_break _ _ _ _ _ _) as [[brk d'] sm2].
Qed.

Lemma record_success_contexts (now : Q) (comp : string) (d : Disk)
    (h : ErrorHandler) :
  error_contexts (record_success now comp d h).2
  = filter (λ kv, String.prefix comp kv.1 = false) (error_contexts h).
Proof.
  unfold record_success. destruct (get_circuit_breaker _ _) as [cb sm1].
  by destruct (is_open cb).
Qed.

Lemma trigger_contexts (now : Q) (comp : string) (d : Disk) (h : ErrorHandler) :
  error_contexts (trigger_circuit_breaker now comp d h).2 = error_contexts h.
Proof.
  unfold trigger_circuit_breaker. by destruct (get_circuit_breaker _ _).
Qed.

(** X13. Every context is stored under the key built from its own
    component and kind: this holds for the empty table and is kept by
    [handle_error], [record_success] and [trigger_circuit_breaker]. *)
Theorem keyed_by_owner_kept :
  keyed_by_owner ∅
  ∧ (∀ t now error comp d h,
       keyed_by_owner (error_contexts h) →
       keyed_by_owner (error_contexts (handle_error t now error comp d h).2))
  ∧ (∀ now comp d h,
       keyed_by_owner (error_contexts h) →
       keyed_by_owner (error_contexts (record_success now comp d h).2))
  ∧ (∀ now comp d h,
       keyed_by_owner (error_contexts h) →
       keyed_by_owner (error_contexts (trigger_circuit_breaker now comp d h).2)).
Proof.
  repeat split.
  - intros key c Hc. by rewrite lookup_empty in Hc.
  - intros t now error comp d h Hinv key c.
    rewrite handle_error_contexts. cbv zeta.
    destruct (decide (context_key comp (classify_error error) = key)) as [<- | Hne].
    + rewrite lookup_insert_eq. intros [= <-]. cbn.
      destruct (error_contexts h !! _) as [c0 |] eqn:Hc0; cbn; [| done].
      by apply Hinv.
    + rewrite lookup_insert_ne by done. apply Hinv.
  - intros now comp d h Hinv key c. rewrite record_success_contexts.
    intros Hc. apply map_lookup_filter_Some in Hc as [Hc _]. by apply Hinv.
  - intros now comp d h Hinv. by rewrite trigger_contexts.
Qed.

Lemma keyed_by_owner_kept_witness :
  keyed_by_owner
    (error_contexts
       (handle_error 1 1 stream_failure "tailer" empty_disk new_handler).2).
Proof.
  destruct keyed_by_owner_kept as (Hempty & Hhandle & _).
  apply Hhandle. exact Hempty.
Defined.

Lemma context_key_inj (comp k1 k2 : string) :
  context_key comp k1 = context_key comp k2 → k1 = k2.
Proof.
  unfold context_key. intros Heq.
  apply string_app_inj in Heq. by apply string_app_inj in Heq.
Qed.

Lemma handle_error_attempts (t now : Q) (error comp : string) (d : Disk)
    (h : ErrorHandler) (key : string) :
  attempts_so_far (handle_error t now error comp d h).2 key
  = if bool_decide (key = context_key comp (classify_error error))
    then (attempts_so_far h key + 1)%Z else attempts_so_far h key.
Proof.
  unfold attempts_so_far. rewrite handle_error_contexts. cbv zeta.
  case_bool_decide as Hk.
  - subst key. rewrite lookup_insert_eq. cbn.
    by destruct (error_contexts h !! _).
  - by rewrite lookup_insert_ne.
Qed.

(** X14. Over any series of failures handled for a component, the attempt
    count of a kind grows by exactly the number of failures of that kind
    in the series, whatever the breaker does meanwhile. *)
Theorem attempts_count_failures (comp : string) (failures : list (Q * string))
    (d : Disk) (h : ErrorHandler) (k : string) :
  attempts_so_far (run_failures comp failures d h).2 (context_key comp k)
  = (attempts_so_far h (context_key comp k)
     + Z.of_nat (length (filter (λ f, classify_error f.2 = k) failures)))%Z.
Proof.
  revert d h. induction failures as [| [t error] rest IH]; intros d h.
  - cbn. lia.
  - cbn [run_failures].
    destruct (handle_error t t error comp d h) as [[a d1] h1] eqn:Hstep.
    specialize (IH d1 h1).
    destruct (run_failures comp rest d1 h1) as [[acts d2] h2]. cbn [snd] in *.
    rewrite IH.
    assert (Hh1 : h1 = (handle_error t t error comp d h).2) by by rewrite Hstep.
    rewrite Hh1, handle_error_attempts.
    rewrite filter_cons. cbn [snd].
    destruct (decide (classify_error error = k)) as [Hk | Hk].
    + rewrite bool_decide_eq_true_2 by by rewrite Hk. cbn [length]. lia.
    + rewrite bool_decide_eq_false_2; [lia |].
      intros Heq. by apply context_key_inj in Heq.
Qed.

(** ** The breaker inside handle_error *)

(** X15. While the breaker of a component is open and the clock is before
    its deadline, [handle_error] answers CIRCUIT_BREAKER for every error,
    writes nothing to disk and leaves every breaker as it is; the failure
    is still counted. *)
Theorem open_breaker_fails_fast (t now : Q) (error comp : string) (d : Disk)
    (h : ErrorHandler) (cb : CircuitBreakerState) :
  breaker_of h comp = Some cb →
  is_open cb = true →
  (now < next_attempt_time cb)%Q →
  let result := handle_error t now error comp d h in
  let key := context_key comp (classify_error error) in
  result.1.1 = CIRCUIT_BREAKER
  ∧ result.1.2 = d
  ∧ state_manager result.2 = state_manager h
  ∧ attempts_so_far result.2 key = (attempts_so_far h key + 1)%Z.
Proof.
  intros Hcb Hopen Hnow. cbv zeta. split; [| split; [| split]].
  4: { rewrite handle_error_attempts. by rewrite bool_decide_eq_true_2. }
  all: unfold handle_error, breaker_of in *;
    rewrite (get_circuit_breaker_known _ _ _ Hcb);
    unfold _should_circuit_break; rewrite Hopen;
    rewrite (Qle_bool_false _ _ Hnow); reflexivity.
Qed.

Lemma open_breaker_fails_fast_witness :
  (handle_error 30 30 permission_failure "tailer" tripped.1 tripped.2).1.1
  = CIRCUIT_BREAKER.
Proof.
  destruct (open_breaker_fails_fast 30 30 permission_failure "tailer"
              tripped.1 tripped.2
              {| is_open := true; failure_count := 5; last_failure_time := 5;
                 last_success_time := 0; next_attempt_time := 5 + 60 |})
    as (Hcb & _); [vm_compute; reflexivity | reflexivity | reflexivity |].
  exact Hcb.
Defined.

(** X16. When a failure is handled for a component whose breaker is open
    and whose deadline has passed, the breaker is closed in memory only:
    [is_open] becomes [False], [failure_count] and the deadline stay,
    nothing is written to disk, and the answer is the ordinary recovery
    action, never CIRCUIT_BREAKER. *)
Theorem half_open_in_memory_only (t now : Q) (error comp : string) (d : Disk)
    (h : ErrorHandler) (cb : CircuitBreakerState) :
  breaker_of h comp = Some cb →
  is_open cb = true →
  (next_attempt_time cb <= now)%Q →
  let result := handle_error t now error comp d h in
  result.1.1 ≠ CIRCUIT_BREAKER
  ∧ result.1.2 = d
  ∧ breaker_of result.2 comp
    = Some {| is_open := false; failure_count := failure_count cb;
              last_failure_time := last_failure_time cb;
              last_success_time := last_success_time cb;
              next_attempt_time := next_attempt_time cb |}
  ∧ (∀ other, other ≠ comp → breaker_of result.2 other = breaker_of h other).
Proof.
  intros Hcb Hopen Hnow. cbv zeta. apply Qle_bool_iff in Hnow.
  unfold handle_error, breaker_of in *.
  rewrite (get_circuit_breaker_known _ _ _ Hcb).
  unfold _should_circuit_break. rewrite Hopen, Hnow. cbn [fst snd state_manager].
  rewrite breakers_set_breaker. repeat split.
  - apply get_recovery_action_not_breaker.
  - by rewrite lookup_insert_eq.
  - intros other Hne. by rewrite lookup_insert_ne.
Qed.

Lemma half_open_in_memory_only_witness :
  (handle_error 70 70 stream_failure "tailer" tripped.1 tripped.2).1.2 = tripped.1.
Proof.
  destruct (half_open_in_memory_only 70 70 stream_failure "tailer"
              tripped.1 tripped.2
              {| is_open := true; failure_count := 5; last_failure_time := 5;
                 last_success_time := 0; next_attempt_time := 5 + 60 |})
    as (_ & Hdisk & _);
    [vm_compute; reflexivity | reflexivity | vm_compute; discriminate |].
  exact Hdisk.
Defined.

Lemma trigger_breaker (now : Q) (comp : string) (d : Disk) (h : ErrorHandler) :
  let old := default CircuitBreakerState_default (breaker_of h comp) in
  breaker_of (trigger_circuit_breaker now comp d h).2 comp
  = Some {| is_open := true; failure_count := failure_count old;
            last_failure_time := last_failure_time old;
            last_success_time := last_success_time old;
            next_attempt_time := now + cb_timeout |}.
Proof.
  cbv zeta. unfold trigger_circuit_breaker, breaker_of.
  destruct (breakers (state_manager h) !! comp) as [cb |] eqn:Hcb.
  - rewrite (get_circuit_breaker_known _ _ _ Hcb). cbn.
    by rewrite lookup_insert_eq.
  - rewrite (get_circuit_breaker_unknown _ _ Hcb). cbn.
    by rewrite lookup_insert_eq.
Qed.

(** X17. [trigger_circuit_breaker] opens the breaker of the component
    with the deadline [now + cb_timeout], the time of the call plus 60
    seconds, and keeps its failure count and its two time stamps; the error
    contexts are untouched.  At every time before that deadline
    [is_circuit_open] answers [True] and [handle_error] answers
    CIRCUIT_BREAKER for every error of the component; at the deadline and
    at every later time [is_circuit_open] answers [False]. *)
Theorem trigger_blocks_until_deadline (now : Q) (comp : string)
    (d : Disk) (h : ErrorHandler) :
  let old := default CircuitBreakerState_default (breaker_of h comp) in
  let h' := (trigger_circuit_breaker now comp d h).2 in
  breaker_of h' comp
    = Some {| is_open := true; failure_count := failure_count old;
              last_failure_time := last_failure_time old;
              last_success_time := last_success_time old;
              next_attempt_time := now + cb_timeout |}
  ∧ error_contexts h' = error_contexts h
  ∧ (∀ later, (later < now + cb_timeout)%Q →
       (is_circuit_open later comp h').1 = true
       ∧ (∀ t error d',
            (handle_error t later error comp d' h').1.1 = CIRCUIT_BREAKER))
  ∧ (∀ later, (now + cb_timeout <= later)%Q →
       (is_circuit_open later comp h').1 = false).
Proof.
  cbv zeta.
  pose proof (trigger_breaker now comp d h) as Hcb. cbv zeta in Hcb.
  split; [exact Hcb | split; [apply trigger_contexts | split]].
  - intros later Hlater. split.
    + unfold is_circuit_open. unfold breaker_of in Hcb.
      rewrite (get_circuit_breaker_known _ _ _ Hcb). cbn.
      by rewrite (Qle_bool_false _ _ Hlater).
    + intros t error d'. unfold handle_error. unfold breaker_of in Hcb.
      rewrite (get_circuit_breaker_known _ _ _ Hcb).
      unfold _should_circuit_break. cbn [is_open next_attempt_time].
      by rewrite (Qle_bool_false _ _ Hlater).
  - intros later Hlater. unfold is_circuit_open. unfold breaker_of in Hcb.
    rewrite (get_circuit_breaker_known _ _ _ Hcb). cbn.
    by rewrite (proj2 (Qle_bool_iff _ _) Hlater).
Qed.

(** A breaker opened at time 100: still open at 159, no longer at 160. *)
Lemma trigger_blocks_until_deadline_witness :
  (is_circuit_open 159 "tailer"
     (trigger_circuit_breaker 100 "tailer" empty_disk new_handler).2).1 = true
  ∧ (is_circuit_open 160 "tailer"
       (trigger_circuit_breaker 100 "tailer" empty_disk new_handler).2).1 = false.
Proof.
  destruct (trigger_blocks_until_deadline 100 "tailer" empty_disk new_handler)
    as (_ & _ & Hbefore & Hafter).
  split.
  - apply (Hbefore 159%Q). vm_compute. reflexivity.
  - apply (Hafter 160%Q). vm_compute. intros H. discriminate H.
Defined.

Lemma handle_error_not_open (t now : Q) (error comp : string) (d : Disk)
    (h : ErrorHandler) :
  (∀ cb, breaker_of h comp = Some cb → is_open cb = false) →
  let n := (attempts_so_far h (context_key comp (classify_error error)) + 1)%Z in
  let result := handle_error t now error comp d h in
  ((n < cb_failure_threshold)%Z →
     result.1.1 ≠ CIRCUIT_BREAKER
     ∧ (∀ cb, breaker_of result.2 comp = Some cb → is_open cb = false))
  ∧ ((cb_failure_threshold ≤ n)%Z →
       result.1.1 = CIRCUIT_BREAKER
       ∧ ∃ cb, breaker_of result.2 comp = Some cb ∧ is_open cb = true
               ∧ failure_count cb = n
               ∧ next_attempt_time cb = (now + cb_timeout)%Q).
Proof.
  intros Hclosed. cbv zeta. unfold breaker_of in *.
  unfold handle_error, attempts_so_far.
  set (ctx := set_attempt _ _ _ _).
  assert (Hn : attempt_count ctx =
               (default 0 (attempt_count <$>
                  error_contexts h !! context_key comp (classify_error error)) + 1)%Z).
  { subst ctx. cbn. destruct (error_contexts h !! _); done. }
  rewrite <- Hn.
  assert (Hget : ∃ cb0 sm1,
            get_circuit_breaker comp (state_manager h) = (cb0, sm1)
            ∧ is_open cb0 = false ∧ breakers sm1 !! comp = Some cb0).
  { destruct (breakers (state_manager h) !! comp) as [cb0 |] eqn:Hcb.
    - exists cb0, (state_manager h).
      rewrite (get_circuit_breaker_known _ _ _ Hcb). auto.
    - eexists _, _. rewrite (get_circuit_breaker_unknown _ _ Hcb).
      split; [done |]. split; [done |].
      rewrite breakers_set_breaker. by rewrite lookup_insert_eq. }
  destruct Hget as (cb0 & sm1 & -> & Hcb0 & Hsm1).
  unfold _should_circuit_break, _count_recent_failures. rewrite Hcb0.
  destruct (Z.leb_spec cb_failure_threshold (attempt_count ctx)) as [E | E];
    cbn [andb fst snd state_manager update_circuit_breaker].
  - split; [lia |]. intros _. split; [done |].
    rewrite breakers_set_breakers, breakers_set_breaker.
    eexists. split.
    { destruct (decide (component ctx = comp)) as [-> | Hne].
      - by rewrite lookup_insert_eq.
      - rewrite lookup_insert_ne by done. by rewrite lookup_insert_eq. }
    done.
  - split; [| lia]. intros _. split.
    + apply get_recovery_action_not_breaker.
    + intros cb. rewrite Hsm1. by intros [= <-].
Qed.

Lemma run_failures_app (comp : string) (l1 l2 : list (Q * string)) (d : Disk)
    (h : ErrorHandler) :
  run_failures comp (l1 ++ l2) d h
  = let '(a1, d1, h1) := run_failures comp l1 d h in
    let '(a2, d2, h2) := run_failures comp l2 d1 h1 in
    ((a1 ++ a2)%list, d2, h2).
Proof.
  revert d h. induction l1 as [| [t e] l1 IH]; intros d h.
  - cbn. by destruct (run_failures comp l2 d h) as [[a2 d2] h2].
  - cbn. destruct (handle_error t t e comp d h) as [[a d1] h1].
    rewrite IH. destruct (run_failures comp l1 d1 h1) as [[a1 d1'] h1'].
    by destruct (run_failures comp l2 d1' h1') as [[a2 d2] h2].
Qed.

Lemma run_below_threshold (comp error : string) (ts : list Q) (d : Disk)
    (h : ErrorHandler) :
  let key := context_key comp (classify_error error) in
  (∀ cb, breaker_of h comp = Some cb → is_open cb = false) →
  (attempts_so_far h key + Z.of_nat (length ts) < cb_failure_threshold)%Z →
  let result := run_failures comp (map (λ t, (t, error)) ts) d h in
  Forall (λ a, a ≠ CIRCUIT_BREAKER) result.1.1
  ∧ length result.1.1 = length ts
  ∧ (∀ cb, breaker_of result.2 comp = Some cb → is_open cb = false)
  ∧ attempts_so_far result.2 key
    = (attempts_so_far h key + Z.of_nat (length ts))%Z.
Proof.
  cbv zeta. revert d h. induction ts as [| t ts IH]; intros d h Hclosed Hlt.
  - cbn. repeat split; [constructor | done | lia].
  - cbn [map run_failures].
    destruct (handle_error_not_open t t error comp d h Hclosed) as [Hstep _].
    pose proof (handle_error_attempts t t error comp d h
                  (context_key comp (classify_error error))) as Hcount.
    rewrite bool_decide_eq_true_2 in Hcount by done.
    destruct (handle_error t t error comp d h) as [[a d1] h1].
    cbn [fst snd] in *. cbn [length] in Hlt.
    destruct Hstep as [Ha Hclosed1]; [lia |].
    destruct (IH d1 h1 Hclosed1) as (Hall & Hlen & Hcl & Hatt); [lia |].
    destruct (run_failures comp _ d1 h1) as [[acts d2] h2]. cbn [fst snd] in *.
    repeat split.
    + by constructor.
    + cbn. by rewrite Hlen.
    + exact Hcl.
    + rewrite Hatt, Hcount. cbn [length]. lia.
Qed.

(** X18. Starting from a component whose breaker is not open and a kind
    with no failure on record, five failures of that kind in a row: the
    first four never get CIRCUIT_BREAKER, the fifth does, and it leaves the
    breaker open with [failure_count = 5] and the deadline at the time of
    the fifth failure plus the timeout. *)
Theorem breaker_opens_at_fifth_failure (comp error : string) (ts : list Q)
    (t5 : Q) (d : Disk) (h : ErrorHandler) :
  length ts = 4%nat →
  error_contexts h !! context_key comp (classify_error error) = None →
  (∀ cb, breaker_of h comp = Some cb → is_open cb = false) →
  let result :=
    run_failures comp (map (λ t, (t, error)) (ts ++ [t5])%list) d h in
  ∃ acts cb,
    result.1.1 = (acts ++ [CIRCUIT_BREAKER])%list
    ∧ length acts = 4%nat
    ∧ Forall (λ a, a ≠ CIRCUIT_BREAKER) acts
    ∧ breaker_of result.2 comp = Some cb
    ∧ is_open cb = true
    ∧ failure_count cb = 5%Z
    ∧ next_attempt_time cb = (t5 + cb_timeout)%Q.
Proof.
  intros Hlen Hfresh Hclosed. cbv zeta.
  rewrite map_app, run_failures_app.
  assert (H0 : attempts_so_far h (context_key comp (classify_error error)) = 0%Z).
  { unfold attempts_so_far. by rewrite Hfresh. }
  destruct (run_below_threshold comp error ts d h Hclosed)
    as (Hall & Hlen4 & Hcl & Hatt).
  { rewrite H0, Hlen. unfold cb_failure_threshold. lia. }
  destruct (run_failures comp (map _ ts) d h) as [[acts d1] h1].
  cbn [fst snd] in *. cbn [map run_failures].
  destruct (handle_error_not_open t5 t5 error comp d1 h1 Hcl) as [_ Hopen].
  destruct (handle_error t5 t5 error comp d1 h1) as [[a d2] h2].
  cbn [fst snd] in *.
  destruct Hopen as (-> & cb & Hcb & Ho & Hfc & Hna).
  { rewrite Hatt, H0, Hlen. unfold cb_failure_threshold. lia. }
  exists acts, cb. repeat split; try done.
  - lia.
  - rewrite Hfc, Hatt, H0, Hlen. lia.
Qed.

Lemma breaker_opens_at_fifth_failure_witness :
  ∃ acts cb,
    (run_failures "tailer"
       (map (λ t : Q, (t, permission_failure))
            ([1%Q; 2%Q; 3%Q; 4%Q] ++ [5%Q])%list)
       empty_disk new_handler).1.1 = (acts ++ [CIRCUIT_BREAKER])%list
    ∧ length acts = 4%nat
    ∧ Forall (λ a, a ≠ CIRCUIT_BREAKER) acts
    ∧ breaker_of
        (run_failures "tailer"
           (map (λ t : Q, (t, permission_failure))
                ([1%Q; 2%Q; 3%Q; 4%Q] ++ [5%Q])%list)
           empty_disk new_handler).2 "tailer" = Some cb
    ∧ is_open cb = true
    ∧ failure_count cb = 5%Z
    ∧ next_attempt_time cb = (5 + cb_timeout)%Q.
Proof.
  apply (breaker_opens_at_fifth_failure "tailer" permission_failure
           [1%Q; 2%Q; 3%Q; 4%Q] 5%Q empty_disk new_handler);
    [reflexivity | reflexivity | intros cb H; vm_compute in H; discriminate].
Defined.

End HandlerOperations.

(* ===================================================================== *)
(** * Further properties of the file tailer *)
(* ===================================================================== *)

Section TailerOperations.
Import Models Handler Tailer Scenarios Observe.

(** ** Closing and opening *)

Lemma record_success_offsets (now : Q) (comp : string) (d : Disk)
    (h : ErrorHandler) :
  file_position (state (state_manager (record_success now comp d h).2))
    = file_position (state (state_manager h))
  ∧ file_inode (state (state_manager (record_success now comp d h).2))
    = file_inode (state (state_manager h)).
Proof.
  unfold record_success.
  destruct (breakers (state_manager h) !! comp) as [cb |] eqn:Hcb.
  - rewrite (get_circuit_breaker_known _ _ _ Hcb). by destruct (is_open cb).
  - by rewrite (get_circuit_breaker_unknown _ _ Hcb).
Qed.

Lemma record_success_closes (now : Q) (comp : string) (d : Disk)
    (h : ErrorHandler) :
  ∃ cb, breaker_of (record_success now comp d h).2 comp = Some cb
        ∧ is_open cb = false.
Proof.
  unfold record_success, breaker_of.
  destruct (breakers (state_manager h) !! comp) as [cb |] eqn:Hcb.
  - rewrite (get_circuit_breaker_known _ _ _ Hcb).
    destruct (is_open cb) eqn:Hopen; cbn.
    + eexists. by rewrite lookup_insert_eq.
    + by exists cb.
  - rewrite (get_circuit_breaker_unknown _ _ Hcb). cbn.
    eexists. by rewrite lookup_insert_eq.
Qed.

(** What a successful [_ensure_file_open] leaves, for a manager without an
    open file: [resume] tells which branch of the seek is taken. *)
Lemma ensure_file_open_closed (now : Q) (w : World) (d : Disk)
    (fm : LogFileManager) (path data : string) (st : FileStat) :
  current_file fm = None →
  current_path fm = Some path →
  path_exists w = true →
  open_result w = Some data →
  stat_result w = Some st →
  let saved_position := file_position (manager_state fm) in
  let resume :=
    bool_decide (file_inode (manager_state fm) = Some (st_ino st))
    && (saved_position <=? st_size st)%Z in
  let target :=
    if resume then saved_position else Z.of_nat (String.length data) in
  (resume = true → (0 ≤ saved_position)%Z) →
  let result := _ensure_file_open now w d fm in
  result.1.1 = Ret true
  ∧ current_file result.2 = Some (mkHandle data target)
  ∧ last_position result.2 = target
  ∧ current_inode result.2 = Some (st_ino st)
  ∧ current_path result.2 = Some path
  ∧ file_position (manager_state result.2) = target
  ∧ file_inode (manager_state result.2) = Some (st_ino st)
  ∧ ∃ h0, error_handler result.2 = (record_success now "file_manager" d h0).2.
Proof.
  intros Hfile Hpath Hex Hopen Hstat. cbv zeta. intros Hpos.
  unfold _ensure_file_open. rewrite Hfile, Hpath, Hex, Hopen, Hstat. cbn [negb].
  change (manager_state (set_file _ _ (set_file _ _ fm))) with (manager_state fm).
  change (current_inode (set_file _ (Some (st_ino st)) _)) with (Some (st_ino st)).
  destruct (bool_decide (file_inode (manager_state fm) = Some (st_ino st))
            && (file_position (manager_state fm) <=? st_size st)%Z) eqn:Hres.
  - specialize (Hpos eq_refl).
    destruct (Z.ltb_spec (file_position (manager_state fm)) 0) as [? | _]; [lia |].
    match goal with
    | |- context [record_success now "file_manager" d ?h0] =>
        pose proof (record_success_offsets now "file_manager" d h0) as [Hp Hi];
        destruct (record_success now "file_manager" d h0) as [d' h'] eqn:Hrs
    end.
    cbn in *. unfold manager_state. cbn. rewrite Hp, Hi.
    repeat split; try done. eexists. by rewrite Hrs.
  - match goal with
    | |- context [record_success now "file_manager" d ?h0] =>
        pose proof (record_success_offsets now "file_manager" d h0) as [Hp Hi];
        destruct (record_success now "file_manager" d h0) as [d' h'] eqn:Hrs
    end.
    cbn in *. unfold manager_state. cbn. rewrite Hp, Hi.
    repeat split; try done. eexists. by rewrite Hrs.
Qed.

Lemma close_file_saves_position_aux (fm : LogFileManager) (h : Handle) :
  current_file fm = Some h →
  current_file (_close_file fm) = None
  ∧ file_position (manager_state (_close_file fm)) = h_pos h
  ∧ file_inode (manager_state (_close_file fm))
    = match current_inode fm with
      | Some i => Some i
      | None => file_inode (manager_state fm)
      end
  ∧ current_path (_close_file fm) = current_path fm.
Proof.
  intros Hh. unfold _close_file. rewrite Hh. cbn.
  do 2 (split; [done |]). split; [| done]. by destruct (current_inode fm).
Qed.

(** X19. [_close_file] always forgets the file object and the inode, and
    never touches [last_position].  When [tell()] answers, as it does on
    the handle of a regular file, the position (and the inode, when one is
    known) goes to the state manager first; when [tell()] raises, as it
    does on a stream that is not seekable, nothing is handed over: the
    error handler and its state manager are what they were.  Closing
    again, or closing a manager without an open file, changes nothing. *)
Theorem close_file_saves_position (fm : LogFileManager) :
  let fm' := _close_file fm in
  current_file fm' = None
  ∧ _close_file fm' = fm'
  ∧ last_position fm' = last_position fm
  ∧ (current_file fm = None → fm' = fm)
  ∧ (∀ h, current_file fm = Some h →
       fm' = close_with (Some (h_pos h)) fm)
  ∧ (∀ pos,
       current_file (close_with (Some pos) fm) = None
       ∧ current_inode (close_with (Some pos) fm) = None
       ∧ last_position (close_with (Some pos) fm) = last_position fm
       ∧ file_position (manager_state (close_with (Some pos) fm)) = pos
       ∧ file_inode (manager_state (close_with (Some pos) fm))
         = match current_inode fm with
           | Some i => Some i
           | None => file_inode (manager_state fm)
           end)
  ∧ (current_file (close_with None fm) = None
     ∧ current_inode (close_with None fm) = None
     ∧ last_position (close_with None fm) = last_position fm
     ∧ error_handler (close_with None fm) = error_handler fm).
Proof.
  cbv zeta. unfold _close_file.
  destruct (current_file fm) as [h |] eqn:Hh.
  - cbn. do 4 (split; [done |]). split; [by intros h' [= <-] |].
    split; [| done]. intros pos. do 4 (split; [done |]).
    by destruct (current_inode fm).
  - rewrite Hh. do 4 (split; [done |]). split; [by intros h' [=] |].
    split; [| done]. intros pos. cbn. do 4 (split; [done |]).
    by destruct (current_inode fm).
Qed.

Lemma close_file_saves_position_witness :
  file_position
    (manager_state
       (_close_file
          (tailer_with (state_with 0 None ∅) (Some (mkHandle short_log 6))
                       (Some 7%Z) 6))) = 6%Z.
Proof.
  destruct (close_file_saves_position
              (tailer_with (state_with 0 None ∅) (Some (mkHandle short_log 6))
                           (Some 7%Z) 6)) as (_ & _ & _ & _ & Hsame & Hsaved & _).
  rewrite (Hsame (mkHandle short_log 6)); [| reflexivity].
  destruct (Hsaved 6%Z) as (_ & _ & _ & Hpos & _).
  exact Hpos.
Defined.

(** X20. Closing an open file and opening the path again resumes where the
    handle was: when [open] returns a seekable stream, the inode recorded
    at open time is the inode of the file found and the file is at least
    as long as the offset of the handle, the new handle and
    [last_position] are at that offset.  When [open] returns a stream that
    is not seekable, the open raises and the state manager keeps the
    offset the close has handed to it. *)
Theorem close_then_open_resumes (now : Q) (w : World) (d : Disk)
    (fm : LogFileManager) (h : Handle) (path : string) :
  current_file fm = Some h →
  current_path fm = Some path →
  path_exists w = true →
  let result := _ensure_file_open now w d (_close_file fm) in
  (∀ (data : string) (st : FileStat),
     open_result w = Some (RegularFile data) →
     stat_result w = Some st →
     current_inode fm = Some (st_ino st) →
     (0 ≤ h_pos h ≤ st_size st)%Z →
     result.1.1 = Ret true
     ∧ current_file result.2 = Some (mkHandle data (h_pos h))
     ∧ last_position result.2 = h_pos h
     ∧ file_position (manager_state result.2) = h_pos h)
  ∧ (open_result w = Some NonSeekable →
     result.1.1 = Raise
     ∧ current_file result.2 = None
     ∧ file_position (manager_state result.2) = h_pos h).
Proof.
  intros Hh Hpath Hex. cbv zeta.
  destruct (close_file_saves_position_aux fm h Hh) as (Hc & Hp & Hi & Hpath').
  rewrite Hpath in Hpath'. split.
  - intros data st Hopen Hstat Hino Hpos. rewrite Hino in Hi.
    destruct (ensure_file_open_closed now w d (_close_file fm) path data st
                Hc Hpath' Hex Hopen Hstat) as (Hr & Hf & Hl & _ & _ & Hs & _).
    { rewrite Hp. lia. }
    rewrite Hp, Hi in *.
    rewrite bool_decide_eq_true_2 in * by done.
    destruct (Z.leb_spec (h_pos h) (st_size st)); [| lia]. cbn [andb] in *.
    done.
  - intros Hopen. unfold _ensure_file_open at 1 2 3.
    rewrite Hc, Hpath', Hex, Hopen. cbn [negb fst snd].
    do 2 (split; [done |]). exact Hp.
Qed.

Lemma close_then_open_resumes_witness :
  current_file
    (_ensure_file_open 200 short_log_world empty_disk
       (_close_file
          (tailer_with (state_with 0 None ∅) (Some (mkHandle short_log 3))
                       (Some 7%Z) 3))).2
  = Some (mkHandle short_log 3).
Proof.
  destruct (close_then_open_resumes 200 short_log_world empty_disk
              (tailer_with (state_with 0 None ∅) (Some (mkHandle short_log 3))
                           (Some 7%Z) 3)
              (mkHandle short_log 3) log_file)
    as (Hregular & _); [reflexivity | reflexivity | reflexivity |].
  destruct (Hregular short_log (mkFileStat 7 9)) as (_ & Hfile & _);
    [reflexivity | reflexivity | reflexivity | simpl; lia |].
  exact Hfile.
Defined.

(** X21. [reopen_file] on a path where [open] returns a seekable stream
    and [os.stat] succeeds starts at the end of the file it finds,
    whatever was open and whatever offset and inode were saved: the saved
    inode is forgotten before the file is opened, so the test for resuming
    fails; the state manager then holds the new end offset and inode.
    When [open] returns a stream that is not seekable, [reopen_file]
    raises and leaves no file object, offset 0 and no inode in the state
    manager. *)
Theorem reopen_file_starts_at_end (now : Q) (w : World) (d : Disk)
    (fm : LogFileManager) (path : string) :
  current_path fm = Some path →
  path_exists w = true →
  let result := reopen_file now w d fm in
  (∀ (data : string) (st : FileStat),
     open_result w = Some (RegularFile data) →
     stat_result w = Some st →
     let eof := Z.of_nat (String.length data) in
     result.1.1 = Ret true
     ∧ current_file result.2 = Some (mkHandle data eof)
     ∧ last_position result.2 = eof
     ∧ file_position (manager_state result.2) = eof
     ∧ file_inode (manager_state result.2) = Some (st_ino st))
  ∧ (open_result w = Some NonSeekable →
     result.1.1 = Raise
     ∧ current_file result.2 = None
     ∧ file_position (manager_state result.2) = 0%Z
     ∧ file_inode (manager_state result.2) = None).
Proof.
  intros Hpath Hex. cbv zeta. unfold reopen_file.
  set (fm0 := on_state_manager forget_position (_close_file fm)).
  assert (Hc : current_file fm0 = None).
  { subst fm0. unfold _close_file. by destruct (current_file fm) eqn:E. }
  assert (Hp : current_path fm0 = Some path).
  { subst fm0. unfold _close_file. by destruct (current_file fm). }
  assert (Hi : file_inode (manager_state fm0) = None) by done.
  split.
  - intros data st Hopen Hstat. cbv zeta.
    destruct (ensure_file_open_closed now w d fm0 path data st
                Hc Hp Hex Hopen Hstat) as (Hr & Hf & Hl & _ & _ & Hs & Hino & _).
    { rewrite Hi. rewrite bool_decide_eq_false_2 by done. done. }
    rewrite Hi in *. rewrite bool_decide_eq_false_2 in * by done.
    cbn [andb] in *. done.
  - intros Hopen. unfold _ensure_file_open.
    rewrite Hc, Hp, Hex, Hopen. cbn [negb fst snd]. done.
Qed.

Lemma reopen_file_starts_at_end_witness :
  current_file
    (reopen_file 200 short_log_world empty_disk
       (tailer_with (state_with 3 (Some 7%Z) ∅) (Some (mkHandle short_log 3))
                    (Some 7%Z) 3)).2
  = Some (mkHandle short_log 9).
Proof.
  destruct (reopen_file_starts_at_end 200 short_log_world empty_disk
              (tailer_with (state_with 3 (Some 7%Z) ∅)
                 (Some (mkHandle short_log 3)) (Some 7%Z) 3)
              log_file)
    as (Hregular & _); [reflexivity | reflexivity |].
  destruct (Hregular short_log (mkFileStat 7 9)) as (_ & Hfile & _);
    [reflexivity | reflexivity |].
  exact Hfile.
Defined.



Lemma ensure_file_open_handler (now : Q) (w : World) (d : Disk)
    (fm : LogFileManager) :
  current_file fm = None →
  (_ensure_file_open now w d fm).1.1 = Ret true →
  ∃ h0, error_handler (_ensure_file_open now w d fm).2
        = (record_success now "file_manager" d h0).2.
Proof.
  intros Hfile. unfold _ensure_file_open. rewrite Hfile.
  destruct (current_path fm); [| done].
  destruct (path_exists w); [| done]. cbn [negb].
  destruct (open_result w) as [[data |] |]; [| done | done].
  destruct (stat_result w) as [st |]; [| done].
  destruct (_ && _).
  - destruct (_ <? 0)%Z; [done |].
    match goal with
    | |- context [record_success now "file_manager" d ?h0] =>
        destruct (record_success now "file_manager" d h0) as [d' h'] eqn:Hrs
    end.
    intros _. eexists. cbn. by rewrite Hrs.
  - match goal with
    | |- context [record_success now "file_manager" d ?h0] =>
        destruct (record_success now "file_manager" d h0) as [d' h'] eqn:Hrs
    end.
    intros _. eexists. cbn. by rewrite Hrs.
Qed.

(** X23. Every successful open of the watched file ends the failure
    streak of the component file_manager: no error context of it is left,
    so its next failure of any kind counts as attempt 1, and its breaker
    is closed. *)
Theorem open_resets_failure_streak (now : Q) (w : World) (d : Disk)
    (fm : LogFileManager) :
  current_file fm = None →
  (_ensure_file_open now w d fm).1.1 = Ret true →
  let h' := error_handler (_ensure_file_open now w d fm).2 in
  (∀ kind, attempts_so_far h' (context_key "file_manager" kind) = 0%Z)
  ∧ ∃ cb, breaker_of h' "file_manager" = Some cb ∧ is_open cb = false.
Proof.
  intros Hfile Hok. cbv zeta.
  destruct (ensure_file_open_handler now w d fm Hfile Hok) as [h0 ->].
  split; [| apply record_success_closes].
  intros kind. unfold attempts_so_far. rewrite record_success_contexts.
  rewrite (proj2 (map_lookup_filter_None _ _ _)); [done |].
  right. intros c _. cbn. unfold context_key. by rewrite prefix_app.
Qed.

Lemma open_resets_failure_streak_witness :
  attempts_so_far
    (error_handler
       (_ensure_file_open 200 short_log_world empty_disk
          {| error_handler := two_components.2; current_file := None;
             current_path := Some log_file; current_inode := None;
             last_position := 0 |}).2)
    (context_key "file_manager" "stream_error") = 0%Z.
Proof.
  destruct (open_resets_failure_streak 200 short_log_world empty_disk
              {| error_handler := two_components.2; current_file := None;
                 current_path := Some log_file; current_inode := None;
                 last_position := 0 |})
    as [Hzero _]; [reflexivity | vm_compute; reflexivity |].
  apply Hzero.
Defined.

(** ** Reading lines *)

Lemma string_app_cons (c : ascii) (s t : string) :
  String c s ++ t = String c (s ++ t).
Proof. reflexivity. Qed.

Lemma split_lines_cons (c : ascii) (t : string) :
  split_lines (String c t)
  = if Ascii.eqb c LF then String c EmptyString :: split_lines t
    else match split_lines t with
         | [] => [String c EmptyString]
         | l :: ls => String c l :: ls
         end.
Proof. reflexivity. Qed.

Lemma split_lines_concat (s : string) :
  foldr String.append "" (split_lines s) = s.
Proof.
  induction s as [| c t IH]; [done |]. rewrite split_lines_cons.
  destruct (Ascii.eqb c LF).
  - cbn [foldr]. rewrite IH. reflexivity.
  - destruct (split_lines t) as [| l ls]; cbn [foldr] in *.
    + by rewrite <- IH.
    + rewrite string_app_cons. by rewrite IH.
Qed.

Lemma rstrip_cons (c : ascii) (t : string) :
  rstrip (String c t)
  = match rstrip t with
    | EmptyString =>
        if Ascii.eqb c LF || Ascii.eqb c CR then EmptyString
        else String c EmptyString
    | t' => String c t'
    end.
Proof. reflexivity. Qed.

(** A character that is no line end stays in front of what [rstrip]
    leaves of the rest. *)
Lemma rstrip_plain_cons (c : ascii) (l : string) :
  Ascii.eqb c LF = false → Ascii.eqb c CR = false →
  rstrip (String c l) = String c (rstrip l).
Proof.
  intros Hlf Hcr. rewrite rstrip_cons.
  destruct (rstrip l); [| done]. by rewrite Hlf, Hcr.
Qed.

Lemma split_lines_nil (s : string) : split_lines s = [] → s = "".
Proof.
  destruct s as [| c t]; [done |]. rewrite split_lines_cons.
  destruct (Ascii.eqb c LF); [done |]. by destruct (split_lines t).
Qed.

Lemma plain_text_cons (c : ascii) (t : string) :
  plain_text (String c t) = true →
  Ascii.eqb c CR = false ∧ plain_text t = true.
Proof.
  cbn [plain_text]. intros H.
  apply andb_prop in H as [H Ht]. apply andb_prop in H as [_ Hcr].
  split; [by apply negb_true_iff | done].
Qed.

Lemma plain_text_drop_bytes (n : nat) (s : string) :
  plain_text s = true → plain_text (drop_bytes n s) = true.
Proof.
  revert s. induction n as [| n IH]; intros s Hs; [done |].
  destruct s as [| c t]; [done |]. cbn [drop_bytes].
  apply IH. by apply plain_text_cons in Hs as [_ ?].
Qed.

(** On a text without carriage return, the stripped lines, a line feed
    after each, give the text back, up to the line feed its last line may
    lack. *)
Lemma plain_lines_join (s : string) :
  plain_text s = true →
  join_lines (map rstrip (split_lines s)) = with_final_lf s.
Proof.
  induction s as [| c t IH]; [done |]. intros Hs.
  apply plain_text_cons in Hs as [Hcr Ht]. specialize (IH Ht).
  rewrite split_lines_cons.
  destruct (Ascii.eqb c LF) eqn:Hlf.
  - apply Ascii.eqb_eq in Hlf as ->.
    cbn [map join_lines]. rewrite IH.
    change (rstrip (String LF "")) with "".
    destruct t; reflexivity.
  - destruct (split_lines t) as [| l ls] eqn:Hsplit.
    + apply split_lines_nil in Hsplit as ->.
      cbn [map join_lines]. rewrite rstrip_plain_cons by done.
      cbn. by rewrite Hlf.
    + cbn [map join_lines] in *. rewrite rstrip_plain_cons by done.
      rewrite string_app_cons, IH.
      destruct t; [discriminate Hsplit | reflexivity].
Qed.

(** On such a text no stripped line has a line end left in it. *)
Lemma plain_lines_no_newline (s : string) :
  plain_text s = true →
  Forall (λ y, no_newline y = true) (map rstrip (split_lines s)).
Proof.
  induction s as [| c t IH]; [constructor |]. intros Hs.
  apply plain_text_cons in Hs as [Hcr Ht]. specialize (IH Ht).
  rewrite split_lines_cons.
  destruct (Ascii.eqb c LF) eqn:Hlf.
  - apply Ascii.eqb_eq in Hlf as ->. cbn [map]. by constructor.
  - destruct (split_lines t) as [| l ls].
    + cbn [map]. rewrite rstrip_plain_cons by done. constructor; [| done].
      cbn. by rewrite Hlf, Hcr.
    + cbn [map] in *. rewrite rstrip_plain_cons by done.
      inversion IH as [| ? ? Hl Hls]; subst. constructor; [| done].
      cbn [no_newline]. by rewrite Hlf, Hcr, Hl.
Qed.

Lemma last_cons_default {A : Type} (a d : A) (l : list A) :
  List.last (a :: l) d = List.last l a.
Proof.
  revert a d. induction l as [| b l IH]; intros a d; [done |].
  change (List.last (a :: b :: l) d) with (List.last (b :: l) d).
  by rewrite (IH b d), (IH b a).
Qed.

Lemma after_run_cons (line : string) (rest : list string) (fm : LogFileManager) :
  after_run (read_run (line :: rest) fm) fm
  = after_run (read_run rest (read_step line fm)) (read_step line fm).
Proof. unfold after_run. cbn [read_run map snd]. apply last_cons_default. Qed.

Lemma read_step_handle (line : string) (fm : LogFileManager) (h : Handle) :
  current_file fm = Some h →
  current_file (read_step line fm)
    = Some (mkHandle (h_data h) (h_pos h + Z.of_nat (String.length line)))
  ∧ last_position (read_step line fm)
    = (h_pos h + Z.of_nat (String.length line))%Z.
Proof.
  intros Hh. unfold read_step. rewrite Hh. cbn. by destruct (_ =? 0)%Z.
Qed.

Lemma read_run_end (lines : list string) (fm : LogFileManager) (h : Handle) :
  current_file fm = Some h →
  current_file (after_run (read_run lines fm) fm)
    = Some (mkHandle (h_data h) (h_pos h + Z.of_nat (total_bytes lines)))
  ∧ (lines ≠ [] →
       last_position (after_run (read_run lines fm) fm)
       = (h_pos h + Z.of_nat (total_bytes lines))%Z).
Proof.
  revert fm h. induction lines as [| line rest IH]; intros fm h Hh.
  - cbn. rewrite Hh, Z.add_0_r. split; [by destruct h | done].
  - rewrite after_run_cons.
    destruct (read_step_handle line fm h Hh) as [Hh' Hl'].
    destruct (IH _ _ Hh') as [Hf Hl]. cbn [h_data h_pos] in *.
    assert (Hsum : (h_pos h + Z.of_nat (String.length line)
                    + Z.of_nat (total_bytes rest)
                    = h_pos h + Z.of_nat (total_bytes (line :: rest)))%Z).
    { unfold total_bytes. cbn [sum_list_with]. lia. }
    rewrite Hsum in *. split; [exact Hf |]. intros _.
    destruct rest as [| l2 rest]; [| by apply Hl].
    cbn. rewrite Hl'. unfold total_bytes. cbn. lia.
Qed.

Lemma total_bytes_concat (lines : list string) :
  String.length (foldr String.append "" lines) = total_bytes lines.
Proof.
  induction lines as [| l ls IH]; [done |].
  cbn [foldr]. rewrite string_length_app, IH. reflexivity.
Qed.

Lemma total_bytes_split_lines (s : string) :
  total_bytes (split_lines s) = String.length s.
Proof. by rewrite <- total_bytes_concat, split_lines_concat. Qed.

Lemma length_drop_bytes (n : nat) (s : string) :
  String.length (drop_bytes n s) = (String.length s - n)%nat.
Proof.
  revert s. induction n as [| n IH]; intros s.
  - cbn. lia.
  - destruct s as [| c t]; [done |]. cbn [drop_bytes]. rewrite IH. reflexivity.
Qed.

Lemma drop_bytes_all (n : nat) (s : string) :
  (String.length s ≤ n)%nat → drop_bytes n s = "".
Proof.
  intros Hn. pose proof (length_drop_bytes n s) as Hlen.
  destruct (drop_bytes n s); [done |]. cbn in Hlen. lia.
Qed.

Lemma read_run_yields (lines : list string) (fm : LogFileManager) :
  map fst (read_run lines fm) = map rstrip lines.
Proof.
  revert fm. induction lines as [| l ls IH]; intros fm; [done |].
  cbn. by rewrite IH.
Qed.

(** X26. [_read_lines] on an open file of ASCII text without carriage
    return, the handle inside the file: the lines it yields hold no line
    end, and put one after the other with a line feed after each they give
    back the text from the position of the handle on (with the line feed
    the last line may lack), so every byte is yielded once and in order.
    The run leaves the handle at the end of the file, where
    [get_file_position] and (if a line was read) [last_position] are too;
    run again at once it yields nothing. *)
Theorem read_lines_reaches_end (fm : LogFileManager) (h : Handle) :
  current_file fm = Some h →
  (0 ≤ h_pos h ≤ Z.of_nat (String.length (h_data h)))%Z →
  plain_text (h_data h) = true →
  let eof := Z.of_nat (String.length (h_data h)) in
  let run := _read_lines fm in
  let fm' := after_run run fm in
  join_lines (map fst run)
    = with_final_lf (drop_bytes (Z.to_nat (h_pos h)) (h_data h))
  ∧ Forall (λ y, no_newline y = true) (map fst run)
  ∧ current_file fm' = Some (mkHandle (h_data h) eof)
  ∧ get_file_position fm' = eof
  ∧ (run ≠ [] → last_position fm' = eof)
  ∧ _read_lines fm' = [].
Proof.
  intros Hh Hpos Hplain. cbv zeta.
  set (rest := drop_bytes (Z.to_nat (h_pos h)) (h_data h)).
  assert (Hrest : plain_text rest = true) by by apply plain_text_drop_bytes.
  set (lines := split_lines rest).
  assert (Hrun : _read_lines fm = read_run lines fm).
  { unfold _read_lines, pending_lines. by rewrite Hh. }
  rewrite !Hrun.
  destruct (read_run_end lines fm h Hh) as [Hf Hl].
  assert (Hbytes : (h_pos h + Z.of_nat (total_bytes lines)
                    = Z.of_nat (String.length (h_data h)))%Z).
  { subst lines rest. rewrite total_bytes_split_lines, length_drop_bytes. lia. }
  rewrite Hbytes in *. rewrite read_run_yields.
  split; [by apply plain_lines_join |].
  split; [by apply plain_lines_no_newline |].
  split; [exact Hf |].
  split; [unfold get_file_position; by rewrite Hf |].
  split.
  - intros Hne. apply Hl. intros Hnil. apply Hne. by rewrite Hnil.
  - unfold _read_lines, pending_lines. rewrite Hf. cbn [h_pos h_data].
    rewrite drop_bytes_all by lia. reflexivity.
Qed.

(** The nine bytes of [short_log] read from offset 3: the two lines
    left. *)
Lemma read_lines_reaches_end_witness :
  join_lines
    (map fst
       (_read_lines
          (tailer_with (state_with 3 (Some 7%Z) ∅) (Some (mkHandle short_log 3))
                       (Some 7%Z) 3)))
  = with_final_lf (drop_bytes (Z.to_nat 3) short_log).
Proof.
  destruct (read_lines_reaches_end
              (tailer_with (state_with 3 (Some 7%Z) ∅)
                 (Some (mkHandle short_log 3)) (Some 7%Z) 3)
              (mkHandle short_log 3)) as (Hlines & _);
    [reflexivity | simpl; lia | reflexivity |].
  exact Hlines.
Defined.

Lemma read_run_stored (s0 p0 : Z) (lines : list string) (fm : LogFileManager)
    (h : Handle) :
  current_file fm = Some h →
  (file_position (manager_state fm) = s0
   ∨ (file_position (manager_state fm) mod 50 = 0)%Z) →
  ((s0 ≤ p0)%Z → (file_position (manager_state fm) ≤ h_pos h)%Z) →
  Forall (λ y : string * LogFileManager,
            (file_position (manager_state y.2) = s0
             ∨ (file_position (manager_state y.2) mod 50 = 0)%Z)
            ∧ ((s0 ≤ p0)%Z →
                 (file_position (manager_state y.2) ≤ last_position y.2)%Z))
         (read_run lines fm).
Proof.
  revert fm h. induction lines as [| line rest IH]; intros fm h Hh Hinit Hle;
    [constructor |].
  cbn [read_run].
  destruct (read_step_handle line fm h Hh) as [Hh' Hl'].
  destruct (read_step_checkpoint line fm h Hh) as [_ Hst]. cbv zeta in Hst.
  assert (Hkind : file_position (manager_state (read_step line fm)) = s0
                  ∨ (file_position (manager_state (read_step line fm)) mod 50 = 0)%Z).
  { rewrite Hst. destruct (Z.eqb_spec
      ((h_pos h + Z.of_nat (String.length line)) mod 50) 0); [by right | done]. }
  assert (Hbound : (s0 ≤ p0)%Z →
            (file_position (manager_state (read_step line fm))
             ≤ h_pos h + Z.of_nat (String.length line))%Z).
  { intros Hs. specialize (Hle Hs). rewrite Hst.
    destruct (_ =? 0)%Z; lia. }
  constructor.
  - cbn [snd]. split; [exact Hkind |]. rewrite Hl'. exact Hbound.
  - apply (IH _ _ Hh' Hkind). exact Hbound.
Qed.

(** X27. On an open file of ASCII text without carriage return, at every
    line [_read_lines] yields, the offset held by the state manager is
    either the one it held before the run or a multiple of 50; and if it
    was not beyond the handle before the run, it is never beyond
    [last_position]: a restart reads some lines again but skips none. *)
Theorem stored_offset_never_ahead (fm : LogFileManager) (h : Handle) :
  current_file fm = Some h →
  plain_text (h_data h) = true →
  Forall (λ y : string * LogFileManager,
            (file_position (manager_state y.2) = file_position (manager_state fm)
             ∨ (file_position (manager_state y.2) mod 50 = 0)%Z)
            ∧ ((file_position (manager_state fm) ≤ h_pos h)%Z →
                 (file_position (manager_state y.2) ≤ last_position y.2)%Z))
         (_read_lines fm).
Proof.
  intros Hh _. unfold _read_lines.
  apply (read_run_stored (file_position (manager_state fm)) (h_pos h) _ fm h Hh);
    [by left | done].
Qed.

Lemma stored_offset_never_ahead_witness :
  Forall (λ y : string * LogFileManager,
            (file_position (manager_state y.2)
               = file_position (manager_state fifty_byte_tailer)
             ∨ (file_position (manager_state y.2) mod 50 = 0)%Z)
            ∧ ((file_position (manager_state fifty_byte_tailer) ≤ 0)%Z →
                 (file_position (manager_state y.2) ≤ last_position y.2)%Z))
         (_read_lines fifty_byte_tailer).
Proof.
  apply (stored_offset_never_ahead fifty_byte_tailer (mkHandle fifty_byte_lines 0));
    reflexivity.
Defined.

(** ** The watch loop *)

Lemma handle_error_action (t now : Q) (error comp : string) (d : Disk)
    (h : ErrorHandler) :
  ∃ ctx,
    attempt_count ctx
      = (attempts_so_far h (context_key comp (classify_error error)) + 1)%Z
    ∧ ((handle_error t now error comp d h).1.1 = CIRCUIT_BREAKER
       ∨ (handle_error t now error comp d h).1.1
         = _get_recovery_action (classify_error error) ctx).
Proof.
  unfold handle_error, attempts_so_far.
  destruct (get_circuit_breaker _ _) as [cb sm1].
  destruct (_should_circuit_break _ _ _ _ _ _) as [[brk d'] sm2]. cbn.
  eexists. split; [| destruct brk; [by left | by right]].
  cbn. by destruct (error_contexts h !! _).
Qed.

Lemma close_file_handler (fm : LogFileManager) :
  error_contexts (error_handler (_close_file fm)) = error_contexts (error_handler fm).
Proof. unfold _close_file. by destruct (current_file fm). Qed.

(** X28. A stream error never ends the watch loop: whatever the state of
    the manager (the count of stream errors not being negative), the
    [except] clause answers it by an immediate retry, a back-off of 2 or 4
    seconds, the restart pause or the breaker pause. *)
Theorem stream_error_never_fatal (t now : Q) (error : string) (d : Disk)
    (fm : LogFileManager) :
  classify_error error = "stream_error" →
  (0 ≤ attempts_so_far (error_handler fm) "file_manager_stream_error")%Z →
  ∃ p, (on_failure t now error d fm).1.1 = Some p
       ∧ (p = Immediately ∨ p = BackOff 2 ∨ p = BackOff 4
          ∨ p = RestartPause ∨ p = BreakerPause).
Proof.
  intros Hkind Hcount. unfold on_failure.
  destruct (handle_error_action t now error "file_manager" d (error_handler fm))
    as (ctx & Hn & Hact).
  pose proof (handle_error_attempts t now error "file_manager" d (error_handler fm)
                (context_key "file_manager" (classify_error error))) as Hafter.
  rewrite bool_decide_eq_true_2 in Hafter by done.
  rewrite Hkind in *.
  change (context_key "file_manager" "stream_error")
    with "file_manager_stream_error" in *.
  set (a := attempts_so_far (error_handler fm) "file_manager_stream_error") in *.
  destruct (handle_error t now error "file_manager" d (error_handler fm))
    as [[action d'] h'].
  cbn [fst snd] in *.
  assert (Hpolicy : action = CIRCUIT_BREAKER
                    ∨ (a = 0%Z ∧ action = RETRY_IMMEDIATE)
                    ∨ ((a = 1 ∨ a = 2)%Z ∧ action = RETRY_WITH_BACKOFF)
                    ∨ action = RESTART_COMPONENT).
  { destruct Hact as [-> | ->]; [by left | right].
    destruct (Z.le_gt_cases (attempt_count ctx) 3) as [Hin | Hover].
    - rewrite get_recovery_action_within_budget by exact Hin.
      destruct (decide (attempt_count ctx = 1%Z)) as [H1 | H1].
      + left. split; [lia |]. by rewrite bool_decide_eq_true_2.
      + right. left. split; [lia |].
        rewrite bool_decide_eq_false_2; [done |]. by intros [_ ?].
    - right. right.
      rewrite get_recovery_action_over_budget by exact Hover.
      reflexivity. }
  destruct Hpolicy as [-> | [[_ ->] | [[Ha ->] | ->]]].
  - eexists. split; [reflexivity |]. tauto.
  - eexists. split; [reflexivity |]. tauto.
  - cbn [fst]. rewrite close_file_handler. cbn [error_handler set_handler].
    unfold attempts_so_far in Hafter.
    destruct (error_contexts h' !! "file_manager_stream_error") as [c |] eqn:Hc;
      cbn in Hafter |- *.
    + rewrite Hafter. destruct Ha as [-> | ->].
      * exists (BackOff 2). split; [reflexivity |]. tauto.
      * exists (BackOff 4). split; [reflexivity |]. tauto.
    + lia.
  - eexists. split; [reflexivity |]. tauto.
Qed.

Lemma stream_error_never_fatal_witness :
  ∃ p, (on_failure 1 1 stream_failure empty_disk
          (tailer_with (state_with 0 None ∅) None None 0)).1.1 = Some p
       ∧ (p = Immediately ∨ p = BackOff 2 ∨ p = BackOff 4
          ∨ p = RestartPause ∨ p = BreakerPause).
Proof.
  apply (stream_error_never_fatal 1 1 stream_failure empty_disk
           (tailer_with (state_with 0 None ∅) None None 0));
    [reflexivity | vm_compute; discriminate].
Defined.

(** X29. After a failure of any kind other than stream_error, the
    back-off the loop sleeps is computed from the attempt count of the
    stream-error context of file_manager as it was before the failure,
    not from the count of the failing kind; without such a context the
    delay is the base delay, however many times the failure has
    happened. *)
Theorem backoff_ignores_failing_kind (t now : Q) (error : string) (d : Disk)
    (fm : LogFileManager) (delay : Q) :
  classify_error error ≠ "stream_error" →
  (on_failure t now error d fm).1.1 = Some (BackOff delay) →
  get_backoff_delay
    (default 1%Z
       (attempt_count <$>
          error_contexts (error_handler fm) !! "file_manager_stream_error"))
    = Some delay
  ∧ (error_contexts (error_handler fm) !! "file_manager_stream_error" = None →
       delay = base_backoff).
Proof.
  intros Hkind. unfold on_failure.
  pose proof (handle_error_contexts t now error "file_manager" d (error_handler fm))
    as Hctx. cbv zeta in Hctx.
  destruct (handle_error t now error "file_manager" d (error_handler fm))
    as [[action d'] h'].
  cbn [fst snd] in *.
  destruct action; cbn [fst]; try discriminate.
  rewrite close_file_handler. cbn [error_handler set_handler].
  rewrite Hctx. rewrite lookup_insert_ne.
  2: { change "file_manager_stream_error"
         with (context_key "file_manager" "stream_error").
       intros Heq. by apply context_key_inj in Heq. }
  intros Hdelay. destruct (get_backoff_delay _) as [q |] eqn:Hq; [| done].
  injection Hdelay as <-. split; [done |].
  intros Hnone. rewrite Hnone in Hq. cbn in Hq.
  rewrite get_backoff_delay_first in Hq. by injection Hq.
Qed.

Lemma backoff_ignores_failing_kind_witness :
  get_backoff_delay
    (default 1%Z
       (attempt_count <$>
          error_contexts
            (error_handler (tailer_with (state_with 0 None ∅) None None 0))
            !! "file_manager_stream_error"))
  = Some 1%Q.
Proof.
  destruct (backoff_ignores_failing_kind 1 1 permission_failure empty_disk
              (tailer_with (state_with 0 None ∅) None None 0) 1%Q)
    as [Hdelay _]; [vm_compute; discriminate | vm_compute; reflexivity |].
  exact Hdelay.
Defined.

(** X30. A turn of the watch loop on an open file that has nothing more
    to read yields nothing, keeps the handle and sleeps the poll interval,
    whatever the file system answers: [detect_rotation] is consulted only
    after a turn that read at least one line, so a rotated file that gets
    no further lines is never reopened. *)
Theorem idle_turn_keeps_handle (t_open t_ctx now : Q) (error : string)
    (w w_rot : World) (d : Disk) (fm : LogFileManager) (h : Handle) :
  current_file fm = Some h →
  (Z.of_nat (String.length (h_data h)) ≤ h_pos h)%Z →
  watch_turn t_open t_ctx now error w w_rot d fm = ([], Some Poll, d, fm).
Proof.
  intros Hh Hpos. unfold watch_turn, _ensure_file_open. rewrite Hh.
  assert (Hrun : _read_lines fm = []).
  { unfold _read_lines, pending_lines. rewrite Hh.
    rewrite drop_bytes_all by lia. reflexivity. }
  rewrite Hrun. reflexivity.
Qed.

(** The log has been removed ([detect_rotation] answers [True]), the
    handle is at the end of the old file: the turn keeps the handle. *)
Lemma idle_turn_keeps_handle_witness :
  detect_rotation
    {| path_exists := false; open_result := None; stat_result := None |}
    (tailer_with (state_with 9 (Some 7%Z) ∅) (Some (mkHandle short_log 9))
                 (Some 7%Z) 9) = true
  ∧ watch_turn 1 1 1 ""
      {| path_exists := false; open_result := None; stat_result := None |}
      {| path_exists := false; open_result := None; stat_result := None |}
      empty_disk
      (tailer_with (state_with 9 (Some 7%Z) ∅) (Some (mkHandle short_log 9))
                   (Some 7%Z) 9)
    = ([], Some Poll, empty_disk,
       tailer_with (state_with 9 (Some 7%Z) ∅) (Some (mkHandle short_log 9))
                   (Some 7%Z) 9).
Proof.
  split; [reflexivity |].
  apply (idle_turn_keeps_handle 1 1 1 "" _ _ empty_disk _ (mkHandle short_log 9));
    [reflexivity | simpl; lia].
Defined.

End TailerOperations.
